(** * Interior Design Quotation API: a model of [main.py] and [schemas.py]

    The handlers of [main.py] are embedded as functions from a request and a
    database to a response and a database.

    - A request body is a record of [schemas.py]: a value that passed the
      validation of its schema.  An update takes any JSON object.
    - The document store is a finite map from collection names to
      collections; a collection maps the [_id] of a document to its fields,
      so that [_id] is unique by construction, as the store's unique index
      on [_id] makes it.  The store is modelled as far as [main.py] uses
      it: lookups, updates and deletes by [_id], queries that compare
      top-level fields with a string or a timestamp, the sort on
      [created_at], counting, and the one aggregation.  What [$set] makes
      of a document is the store's own matter: the interface [Store]
      holds what the program relies on, whatever the keys of the payload
      are (names of fields, dotted paths, or keys the store refuses).
    - Time is a parameter [now] of the handlers that read the clock, in
      milliseconds.
    - A raised [HTTPException] is a response of its own kind; an exception
      of the store driver reaches the client as status 500.

    Four interfaces stand for what the program takes from its platform:
    [Bson] for [bson.ObjectId], [Numbers] for the numbers Python and the
    store compute with, [Clock] for the textual form of a timestamp, and
    [Store] for the store's [$set].  Every theorem holds for every
    implementation of them. *)

From Stdlib Require Import ZArith NArith Ascii String.
From Stdlib Require Import Hexadecimal HexadecimalString HexadecimalN.
From Stdlib Require Import Floats.PrimFloat Numbers.Cyclic.Int63.Uint63.
From stdpp Require Import base option list sorting strings pretty gmap fin_maps infinite.

Local Open Scope string_scope.
Local Open Scope Z_scope.
Local Set Warnings "-register-all,-inexact-float".

(** ** Platform interfaces *)

(** [bson.ObjectId]: [ObjectId.is_valid(s)], the constructor [ObjectId(s)]
    and [str(oid)].  The constructor is only called on strings that passed
    [is_valid]; [str] followed by the constructor gives the identifier back.
    New identifiers never run out. *)
Class Bson := {
  ObjectId : Type;
  ObjectId_eq_dec :: EqDecision ObjectId;
  ObjectId_countable :: Countable ObjectId;
  ObjectId_infinite :: Infinite ObjectId;
  ObjectId_is_valid : string → bool;
  ObjectId_new : string → ObjectId;
  ObjectId_str : ObjectId → string;
  ObjectId_new_str : ∀ o, ObjectId_new (ObjectId_str o) = o;
}.

(** Numbers: the integer literals, [+], [-], the test [x == 0] (whose
    negation is the truth value of [x]) and the division of a sum by a
    count that the store's [$avg] performs.  The literal [0] equals [0]. *)
Class Numbers := {
  num : Type;
  num_of_Z : Z → num;
  num_add : num → num → num;
  num_sub : num → num → num;
  num_eq_zero : num → bool;
  num_div_count : num → nat → num;
  num_eq_zero_0 : num_eq_zero (num_of_Z 0) = true;
}.

(** [datetime.isoformat()] of a timestamp; timestamps are counted in
    milliseconds, the resolution at which the store keeps them. *)
Class Clock := {
  isoformat : Z → string;
}.

(** ** Concrete platform used to run the model on examples *)

(** Identifiers are natural numbers, written as 24 hexadecimal digits
    (more when the number needs them); reading takes either case. *)
Definition is_hex_digit (c : ascii) : bool :=
  let n := nat_of_ascii c in
  ((48 <=? n) && (n <=? 57) || (65 <=? n) && (n <=? 70) ||
   (97 <=? n) && (n <=? 102))%nat.

Definition lower (c : ascii) : ascii :=
  let n := nat_of_ascii c in
  if ((65 <=? n) && (n <=? 70))%nat then ascii_of_nat (n + 32) else c.

Fixpoint lower_all (s : string) : string :=
  match s with
  | EmptyString => EmptyString
  | String c s' => String (lower c) (lower_all s')
  end.

Fixpoint all_hex (s : string) : bool :=
  match s with
  | EmptyString => true
  | String c s' => is_hex_digit c && all_hex s'
  end.

Fixpoint zeros (n : nat) (s : string) : string :=
  match n with
  | O => s
  | S n' => String "0" (zeros n' s)
  end.

Definition hex24_is_valid (s : string) : bool :=
  (String.length s =? 24)%nat && all_hex s.

Definition hex24_new (s : string) : N :=
  match NilEmpty.uint_of_string (lower_all s) with
  | Some d => N.of_hex_uint d
  | None => 0%N
  end.

Definition hex24_str (n : N) : string :=
  let s := NilEmpty.string_of_uint (N.to_hex_uint n) in
  zeros (24 - String.length s) s.

Lemma lower_all_digits d :
  lower_all (NilEmpty.string_of_uint d) = NilEmpty.string_of_uint d.
Proof.
  induction d as [|d IH|d IH|d IH|d IH|d IH|d IH|d IH|d IH|d IH|d IH
                  |d IH|d IH|d IH|d IH|d IH|d IH];
    cbn [NilEmpty.string_of_uint lower_all]; [done|..];
    rewrite IH; reflexivity.
Qed.

Lemma lower_all_zeros k s : lower_all (zeros k s) = zeros k (lower_all s).
Proof.
  induction k as [|k IH]; [done|].
  cbn [zeros lower_all]. rewrite IH. reflexivity.
Qed.

Lemma uint_of_zeros k s :
  NilEmpty.uint_of_string (zeros k s)
  = Nat.iter k (option_map Hexadecimal.D0) (NilEmpty.uint_of_string s).
Proof. induction k as [|k IH]; simpl; [done|]. by rewrite IH. Qed.

Lemma of_hex_uint_zeros k d :
  match Nat.iter k (option_map Hexadecimal.D0) (Some d) with
  | Some d' => N.of_hex_uint d'
  | None => 0%N
  end = N.of_hex_uint d.
Proof.
  induction k as [|k IH]; simpl; [done|].
  destruct (Nat.iter k _ _); simpl in *; [|done]. by rewrite <- IH.
Qed.

Lemma hex24_new_str n : hex24_new (hex24_str n) = n.
Proof.
  unfold hex24_new, hex24_str.
  rewrite lower_all_zeros, lower_all_digits, uint_of_zeros, NilEmpty.usu.
  rewrite of_hex_uint_zeros. apply HexadecimalN.Unsigned.of_to.
Qed.

#[export] Instance hex24_bson : Bson := {|
  ObjectId := N;
  ObjectId_is_valid := hex24_is_valid;
  ObjectId_new := hex24_new;
  ObjectId_str := hex24_str;
  ObjectId_new_str := hex24_new_str;
|}.

(** Whole numbers of cents stand for amounts; [$avg] rounds towards zero. *)
#[export] Instance Z_numbers : Numbers := {|
  num := Z;
  num_of_Z := λ z, z;
  num_add := Z.add;
  num_sub := Z.sub;
  num_eq_zero := λ z, Z.eqb z 0;
  num_div_count := λ z n, Z.quot z (Z.of_nat n);
  num_eq_zero_0 := eq_refl;
|}.

(** IEEE 754 binary64 numbers, which are Python's floats and the store's
    doubles.  Not declared an instance: it is named where it is used. *)
Definition float_of_Z (z : Z) : float :=
  if (z <? 0)%Z then PrimFloat.opp (PrimFloat.of_uint63 (Uint63.of_Z (- z)))
  else PrimFloat.of_uint63 (Uint63.of_Z z).

Definition float_numbers : Numbers := {|
  num := float;
  num_of_Z := float_of_Z;
  num_add := PrimFloat.add;
  num_sub := PrimFloat.sub;
  num_eq_zero := λ x, PrimFloat.eqb x PrimFloat.zero;
  num_div_count := λ x n, PrimFloat.div x (float_of_Z (Z.of_nat n));
  num_eq_zero_0 := eq_refl;
|}.

(** Timestamps are printed as their number of milliseconds. *)
#[export] Instance plain_clock : Clock := {|
  isoformat := λ t, pretty t;
|}.

(** ** [schemas.py]

    One record per Pydantic model, with the fields in the order of the
    source.  A [Literal] is an enumeration; an [Optional[str]] is an
    [option string]. *)

Inductive Role : Type := admin | employee.

Inductive Status : Type := draft | sent | approved | rejected.

Module User.
Record t : Type := {
    name : string;
    email : string;
    role : Role;
    phone : option string;
    avatar_url : option string;
    is_active : bool;
}.
End User.

Module HouseCategory.
Record t : Type := {
    name : string;
    description : option string;
    is_active : bool;
}.
End HouseCategory.

Module Subcategory.
Record t : Type := {
    name : string;
    description : option string;
    category_id : string;
    is_active : bool;
}.
End Subcategory.

Module Package.
Record t `{Numbers} : Type := {
    name : string;
    description : option string;
    category_id : option string;
    subcategory_id : option string;
    features : list string;
    price : num;
    is_active : bool;
}.
End Package.

Module QuotationItem.
Record t `{Numbers} : Type := {
    package_id : string;
    name : option string;
    quantity : Z;
    unit_price : num;
    total : num;
}.
End QuotationItem.

Module Quotation.
Record t `{Numbers} : Type := {
    employee_id : string;
    client_name : string;
    client_contact : option string;
    house_category_id : option string;
    subcategory_id : option string;
    items : list QuotationItem.t;
    subtotal : num;
    discount : num;
    tax : num;
    total : num;
    status : Status;
    notes : option string;
}.
End Quotation.

(** ** Responses *)

Inductive response (A : Type) : Type :=
| Ok (status_code : nat) (body : A)
| HTTPException (status_code : nat) (detail : string).
Arguments Ok {A} status_code body.
Arguments HTTPException {A} status_code detail.

Definition body_of {A} (r : response A) : option A :=
  match r with
  | Ok _ b => Some b
  | HTTPException _ _ => None
  end.

Definition status_of {A} (r : response A) : nat :=
  match r with
  | Ok c _ => c
  | HTTPException c _ => c
  end.

(** What a write to the store gives back: a value, or the error that the
    driver raises when the store refuses the write. *)
Inductive store_result (A : Type) : Type :=
| Returned (a : A)
| WriteError.
Arguments Returned {A} a.
Arguments WriteError {A}.

(** ** Keys of an update *)

(** The part of a key before its first dot: the top-level field that a
    [$set] under that key writes to. *)
Fixpoint root (key : string) : string :=
  match key with
  | EmptyString => EmptyString
  | String c key' =>
      if Ascii.eqb c "." then EmptyString else String c (root key')
  end.

Fixpoint has_char (c : ascii) (s : string) : bool :=
  match s with
  | EmptyString => false
  | String c' s' => Ascii.eqb c' c || has_char c s'
  end.

Definition starts_with_dollar (s : string) : bool :=
  match s with
  | String c _ => Ascii.eqb c "$"
  | EmptyString => false
  end.

(** A key that is the name of a top-level field which an update may write
    to: not empty, not [_id], without a dot, without a NUL character, and
    not starting with a dollar sign. *)
Definition plain (key : string) : bool :=
  negb (String.eqb key "") && negb (String.eqb key "_id")
  && negb (has_char "." key) && negb (has_char "000" key)
  && negb (starts_with_dollar key).

Section Api.
Context `{Bson, Numbers, Clock}.

(** ** Values *)

(** What a request or response body can hold. *)
Inductive json : Type :=
| JNull
| JBool (b : bool)
| JNum (x : num)
| JStr (s : string)
| JArr (l : list json)
| JObj (o : list (string * json)).

(** What a stored field can hold: a JSON value, or a timestamp written by
    the server ([datetime.now(timezone.utc)]). *)
Inductive value : Type :=
| J (j : json)
| Datetime (t : Z).

(** A stored document without its [_id]; a row is a document with its
    [_id]; a collection maps each [_id] to its document. *)
Abbreviation document := (gmap string value).
Abbreviation row := (ObjectId * gmap string value)%type.
Abbreviation collection := (gmap ObjectId (gmap string value)).
Abbreviation database := (gmap string (gmap ObjectId (gmap string value))).

(** Modelled from the spec: the handle [db] of the repository's [database]
    module, which is not among the sources; spec 4.1 has it as a store of
    collections of records "keyed by an opaque identifier".  [coll db c]
    is [db[c]]: a collection that was never written to is empty. *)
Definition coll (db : database) (c : string) : collection :=
  default ∅ (db !! c).

(** ** [to_str_id] *)

Definition to_json (v : value) : json :=
  match v with
  | J j => j
  | Datetime t => JStr (isoformat t)
  end.

(** [to_str_id(doc)] for a document that the store returned: [_id] becomes
    its string and every timestamp its ISO text.  The guard
    [if not doc: return doc] is the [None] case of [to_str_id <$> _] at the
    call sites. *)
Definition to_str_id (r : row) : gmap string json :=
  <["_id" := JStr (ObjectId_str r.1)]> (to_json <$> r.2).

(** ** The document store

    The operations of the store driver that [main.py] calls.  Queries by
    [_id] are lookups in the collection; the other queries are finite maps
    from field names to conditions, all of which a document has to meet. *)

Inductive cond : Type :=
| Equals (s : string)
| Gte (t : Z).

Definition is_str (s : string) (j : json) : bool :=
  match j with
  | JStr s' => bool_decide (s' = s)
  | _ => false
  end.

(** The store's equality with a string holds of a field that is that
    string and of a field that is an array with that string among its
    elements; [$gte] against a timestamp only ever holds of a timestamp
    field. *)
Definition holds (c : cond) (v : option value) : bool :=
  match c, v with
  | Equals s, Some (J (JStr s')) => bool_decide (s' = s)
  | Equals s, Some (J (JArr l)) => existsb (is_str s) l
  | Gte t, Some (Datetime t') => bool_decide (t ≤ t')
  | _, _ => false
  end.

Definition matches (q : gmap string cond) (d : document) : Prop :=
  map_Forall (λ f c, holds c (d !! f)) q.

#[export] Instance matches_dec q d : Decision (matches q d).
Proof. unfold matches. apply _. Defined.

(** [find_one({"_id": k})] *)
Definition find_one (db : database) (c : string) (k : ObjectId) : option row :=
  (λ d, (k, d)) <$> coll db c !! k.

(** [find(q)], before sorting *)
Definition find (db : database) (c : string) (q : gmap string cond) : list row :=
  filter (λ r, matches q r.2) (map_to_list (coll db c)).

(** The timestamp under [created_at], if the field holds one. *)
Definition created_at (d : document) : option Z :=
  match d !! "created_at" with
  | Some (Datetime t) => Some t
  | _ => None
  end.

(** The order of [.sort("created_at", -1)]: later timestamps first, and
    every timestamp before every value that is not one (a timestamp is
    above all JSON values in the store's order of types).  The order among
    documents whose [created_at] is not a timestamp is left open. *)
Definition newest_first (a b : row) : Prop :=
  match created_at a.2, created_at b.2 with
  | Some ta, Some tb => tb ≤ ta
  | None, Some _ => False
  | _, None => True
  end.

#[export] Instance newest_first_dec a b : Decision (newest_first a b).
Proof. unfold newest_first. repeat case_match; apply _. Defined.

Definition sort_created_desc (l : list row) : list row :=
  merge_sort newest_first l.

Definition count_documents (db : database) (c : string)
    (q : gmap string cond) : nat :=
  length (find db c q).

(** [insert_one(d)]: the store gives the document an [_id] that the
    collection does not hold yet. *)
Definition insert_one (db : database) (c : string) (d : document)
    : ObjectId * database :=
  let k := fresh (dom (coll db c)) in
  (k, <[c := <[k := d]> (coll db c)]> db).

(** [payload["updated_at"] = datetime.now(timezone.utc)]: the dict that
    [update_by_id] hands to [$set]. *)
Definition with_updated_at (now : Z) (payload : gmap string json) : document :=
  <["updated_at" := Datetime now]> (J <$> payload).

(** [{"$set": set}] applied to a document: [apply_set set d] is the
    document after it, or [None] when the store refuses the update (a
    write to [_id], an empty or conflicting path, a path through a value
    that has no fields, a value that it cannot hold).  A key is the name
    of a top-level field or a dotted path into one.  The function is the
    store's, and which updates it refuses is its affair; of the sets that
    [update_by_id] builds, and of the updates that are done, the program
    relies on this much:
    - a top-level field that is the [root] of no key is left as it was;
    - [updated_at] is written, and so is every [plain] key;
    - no other field becomes a timestamp;
    - no field is taken away. *)
Class Store := {
  apply_set : document → document → option document;
  apply_set_frame now payload d d' G :
    apply_set (with_updated_at now payload) d = Some d' →
    G ≠ "updated_at" →
    (∀ key, is_Some (payload !! key) → root key ≠ G) →
    d' !! G = d !! G;
  apply_set_written now payload d d' :
    apply_set (with_updated_at now payload) d = Some d' →
    d' !! "updated_at" = Some (Datetime now)
    ∧ ∀ key v, plain key = true → key ≠ "updated_at" →
               payload !! key = Some v → d' !! key = Some (J v);
  apply_set_timestamps now payload d d' G τ :
    apply_set (with_updated_at now payload) d = Some d' →
    G ≠ "updated_at" →
    d' !! G = Some (Datetime τ) → d !! G = Some (Datetime τ);
  apply_set_keeps now payload d d' G :
    apply_set (with_updated_at now payload) d = Some d' →
    is_Some (d !! G) → is_Some (d' !! G);
}.
Context `{!Store}.

(** [find_one_and_update({"_id": k}, {"$set": set}, return_document=True)]:
    no document under [k] gives [None]; otherwise the document that [$set]
    makes is written and returned, unless the store refuses the update. *)
Definition find_one_and_update (db : database) (c : string) (k : ObjectId)
    (set : document) : store_result (option row) * database :=
  match coll db c !! k with
  | None => (Returned None, db)
  | Some d =>
      match apply_set set d with
      | None => (WriteError, db)
      | Some d' =>
          (Returned (Some (k, d')), <[c := <[k := d']> (coll db c)]> db)
      end
  end.

(** [delete_one({"_id": k})], with its [deleted_count] *)
Definition delete_one (db : database) (c : string) (k : ObjectId)
    : nat * database :=
  match coll db c !! k with
  | None => (0%nat, db)
  | Some _ => (1%nat, <[c := delete k (coll db c)]> db)
  end.

(** Python's [sum] and the store's [$sum]: from [0], left to right.  (On
    floats CPython 3.12 and later carry a compensation term along; nothing
    below depends on how the additions round.) *)
Definition sum (l : list num) : num :=
  foldl num_add (num_of_Z 0) l.

Definition number_at (f : string) (d : document) : option num :=
  match d !! f with
  | Some (J (JNum x)) => Some x
  | _ => None
  end.

(** The document that [$group] with [_id: None] puts out. *)
Record group : Type := {
  revenue : json;
  avg : json;
}.

(** [aggregate([{"$match": q}, {"$group": {"_id": None, "revenue":
    {"$sum": "$total"}, "avg": {"$avg": "$total"}}}])]: no group when no
    document matches, else one; values that are not numbers are skipped,
    and the average of no number is null. *)
Definition aggregate (db : database) (c : string) (q : gmap string cond)
    : list group :=
  match find db c q with
  | [] => []
  | rs =>
      let xs := omap (λ r : row, number_at "total" r.2) rs in
      [ {| revenue := JNum (sum xs);
           avg := match xs with
                  | [] => JNull
                  | _ => JNum (num_div_count (sum xs) (length xs))
                  end |} ]
  end.

(** Modelled from the spec: [create_document] of the repository's
    [database] module, which is not among the sources.  Spec 4.1:
    "insert(collection, record) -> id: assigns a new unique id and
    creation/update timestamps; never fails on valid input."  It takes a
    schema object or a dict; [data] is the dict, or the dump of the
    object.  The id comes back as a string. *)
Definition create_document (now : Z) (c : string) (data : gmap string json)
    (db : database) : string * database :=
  let d := <["updated_at" := Datetime now]>
             (<["created_at" := Datetime now]> (J <$> data)) in
  let '(k, db') := insert_one db c d in
  (ObjectId_str k, db').

(** ** [model_dump] of the schema objects *)

Definition opt_str (o : option string) : json :=
  from_option JStr JNull o.

Definition Role_str (r : Role) : string :=
  match r with admin => "admin" | employee => "employee" end.

Definition Status_str (s : Status) : string :=
  match s with
  | draft => "draft" | sent => "sent"
  | approved => "approved" | rejected => "rejected"
  end.

Definition dump_User (u : User.t) : gmap string json :=
  list_to_map [
    ("name", JStr (User.name u));
    ("email", JStr (User.email u));
    ("role", JStr (Role_str (User.role u)));
    ("phone", opt_str (User.phone u));
    ("avatar_url", opt_str (User.avatar_url u));
    ("is_active", JBool (User.is_active u)) ].

Definition dump_HouseCategory (c : HouseCategory.t) : gmap string json :=
  list_to_map [
    ("name", JStr (HouseCategory.name c));
    ("description", opt_str (HouseCategory.description c));
    ("is_active", JBool (HouseCategory.is_active c)) ].

Definition dump_Subcategory (s : Subcategory.t) : gmap string json :=
  list_to_map [
    ("name", JStr (Subcategory.name s));
    ("description", opt_str (Subcategory.description s));
    ("category_id", JStr (Subcategory.category_id s));
    ("is_active", JBool (Subcategory.is_active s)) ].

Definition dump_Package (p : Package.t) : gmap string json :=
  list_to_map [
    ("name", JStr (Package.name p));
    ("description", opt_str (Package.description p));
    ("category_id", opt_str (Package.category_id p));
    ("subcategory_id", opt_str (Package.subcategory_id p));
    ("features", JArr (JStr <$> Package.features p));
    ("price", JNum (Package.price p));
    ("is_active", JBool (Package.is_active p)) ].

Definition dump_QuotationItem (i : QuotationItem.t) : json :=
  JObj [
    ("package_id", JStr (QuotationItem.package_id i));
    ("name", opt_str (QuotationItem.name i));
    ("quantity", JNum (num_of_Z (QuotationItem.quantity i)));
    ("unit_price", JNum (QuotationItem.unit_price i));
    ("total", JNum (QuotationItem.total i)) ].

Definition dump_Quotation (q : Quotation.t) : gmap string json :=
  list_to_map [
    ("employee_id", JStr (Quotation.employee_id q));
    ("client_name", JStr (Quotation.client_name q));
    ("client_contact", opt_str (Quotation.client_contact q));
    ("house_category_id", opt_str (Quotation.house_category_id q));
    ("subcategory_id", opt_str (Quotation.subcategory_id q));
    ("items", JArr (dump_QuotationItem <$> Quotation.items q));
    ("subtotal", JNum (Quotation.subtotal q));
    ("discount", JNum (Quotation.discount q));
    ("tax", JNum (Quotation.tax q));
    ("total", JNum (Quotation.total q));
    ("status", JStr (Status_str (Quotation.status q)));
    ("notes", opt_str (Quotation.notes q)) ].

(** ** Generic CRUD utilities *)

(** The string that an optional string stands for in a condition
    ([if role], [if pkg.category_id]): [None] and [""] are false. *)
Definition truthy (o : option string) : option string :=
  match o with
  | Some s => if decide (s = "") then None else Some s
  | None => None
  end.

Definition insert_with_schema (now : Z) (c : string) (data : gmap string json)
    (db : database) : response (option (gmap string json)) * database :=
  let '(new_id, db') := create_document now c data db in
  let doc := find_one db' c (ObjectId_new new_id) in
  (Ok 201 (to_str_id <$> doc), db').

(** [update_by_id] catches nothing: the driver's error leaves the handler
    as it is, which the framework answers with 500. *)
Definition update_by_id (now : Z) (c : string) (_id : string)
    (payload : gmap string json) (db : database)
    : response (gmap string json) * database :=
  if negb (ObjectId_is_valid _id) then (HTTPException 400 "Invalid id", db)
  else
    let payload := with_updated_at now payload in
    match find_one_and_update db c (ObjectId_new _id) payload with
    | (WriteError, db') => (HTTPException 500 "Internal Server Error", db')
    | (Returned None, db') => (HTTPException 404 "Not found", db')
    | (Returned (Some res), db') => (Ok 200 (to_str_id res), db')
    end.

Definition delete_by_id (c : string) (_id : string) (db : database)
    : response (gmap string json) * database :=
  if negb (ObjectId_is_valid _id) then (HTTPException 400 "Invalid id", db)
  else
    let '(deleted_count, db') := delete_one db c (ObjectId_new _id) in
    if (deleted_count =? 0)%nat then (HTTPException 404 "Not found", db')
    else (Ok 200 {[ "deleted" := JBool true ]}, db').

(** A list endpoint: [db[c].find(q).sort("created_at", -1)], each
    document through [to_str_id]. *)
Definition list_sorted (db : database) (c : string) (q : gmap string cond)
    : list (gmap string json) :=
  to_str_id <$> sort_created_desc (find db c q).

(** [q[f] = x] when [x] is truthy *)
Definition with_filter (f : string) (x : option string)
    (q : gmap string cond) : gmap string cond :=
  match truthy x with
  | Some s => <[f := Equals s]> q
  | None => q
  end.

(** ** Users *)

Definition list_users (role : option string) (db : database)
    : response (list (gmap string json)) * database :=
  let q := match truthy role with
           | Some r => {[ "role" := Equals r ]}
           | None => ∅
           end in
  (Ok 200 (list_sorted db "user" q), db).

Definition create_user (now : Z) (user : User.t) (db : database) :=
  insert_with_schema now "user" (dump_User user) db.

Definition update_user (now : Z) (user_id : string)
    (payload : gmap string json) (db : database) :=
  update_by_id now "user" user_id payload db.

Definition delete_user (user_id : string) (db : database) :=
  delete_by_id "user" user_id db.

(** ** House categories *)

Definition list_categories (db : database)
    : response (list (gmap string json)) * database :=
  (Ok 200 (list_sorted db "housecategory" ∅), db).

Definition create_category (now : Z) (category : HouseCategory.t)
    (db : database) :=
  insert_with_schema now "housecategory" (dump_HouseCategory category) db.

Definition update_category (now : Z) (category_id : string)
    (payload : gmap string json) (db : database) :=
  update_by_id now "housecategory" category_id payload db.

Definition delete_category (category_id : string) (db : database) :=
  delete_by_id "housecategory" category_id db.

(** ** Subcategories *)

Definition list_subcategories (category_id : option string) (db : database)
    : response (list (gmap string json)) * database :=
  let q := match truthy category_id with
           | Some x => {[ "category_id" := Equals x ]}
           | None => ∅
           end in
  (Ok 200 (list_sorted db "subcategory" q), db).

Definition create_subcategory (now : Z) (sub : Subcategory.t) (db : database)
    : response (option (gmap string json)) * database :=
  if negb (ObjectId_is_valid (Subcategory.category_id sub))
  then (HTTPException 400 "Invalid category_id", db)
  else insert_with_schema now "subcategory" (dump_Subcategory sub) db.

Definition update_subcategory (now : Z) (sub_id : string)
    (payload : gmap string json) (db : database) :=
  update_by_id now "subcategory" sub_id payload db.

Definition delete_subcategory (sub_id : string) (db : database) :=
  delete_by_id "subcategory" sub_id db.

(** ** Packages *)

(** [x and not ObjectId.is_valid(x)] *)
Definition present_and_invalid (x : option string) : bool :=
  match truthy x with
  | Some s => negb (ObjectId_is_valid s)
  | None => false
  end.

Definition list_packages (category_id subcategory_id : option string)
    (db : database) : response (list (gmap string json)) * database :=
  let q := ∅ in
  let q := with_filter "category_id" category_id q in
  let q := with_filter "subcategory_id" subcategory_id q in
  (Ok 200 (list_sorted db "package" q), db).

Definition create_package (now : Z) (pkg : Package.t) (db : database)
    : response (option (gmap string json)) * database :=
  if present_and_invalid (Package.category_id pkg)
  then (HTTPException 400 "Invalid category_id", db)
  else if present_and_invalid (Package.subcategory_id pkg)
  then (HTTPException 400 "Invalid subcategory_id", db)
  else insert_with_schema now "package" (dump_Package pkg) db.

Definition update_package (now : Z) (package_id : string)
    (payload : gmap string json) (db : database) :=
  update_by_id now "package" package_id payload db.

Definition delete_package (package_id : string) (db : database) :=
  delete_by_id "package" package_id db.

(** ** Quotations *)

Definition list_quotations (employee_id status : option string)
    (db : database) : response (list (gmap string json)) * database :=
  let q := ∅ in
  let q := with_filter "employee_id" employee_id q in
  let q := with_filter "status" status q in
  (Ok 200 (list_sorted db "quotation" q), db).

Definition get_quotation (quotation_id : string) (db : database)
    : response (gmap string json) * database :=
  if negb (ObjectId_is_valid quotation_id)
  then (HTTPException 400 "Invalid id", db)
  else
    match find_one db "quotation" (ObjectId_new quotation_id) with
    | None => (HTTPException 404 "Not found", db)
    | Some doc => (Ok 200 (to_str_id doc), db)
    end.

(** [sum([item.total for item in quotation.items]) if quotation.items
    else 0] *)
Definition computed_subtotal (quotation : Quotation.t) : num :=
  match Quotation.items quotation with
  | [] => num_of_Z 0
  | items => sum (QuotationItem.total <$> items)
  end.

Definition create_quotation (now : Z) (quotation : Quotation.t)
    (db : database) : response (option (gmap string json)) * database :=
  if negb (ObjectId_is_valid (Quotation.employee_id quotation))
  then (HTTPException 400 "Invalid employee_id", db)
  else if present_and_invalid (Quotation.house_category_id quotation)
  then (HTTPException 400 "Invalid house_category_id", db)
  else if present_and_invalid (Quotation.subcategory_id quotation)
  then (HTTPException 400 "Invalid subcategory_id", db)
  else
    let subtotal := computed_subtotal quotation in
    let '(new_id, db') :=
      if num_eq_zero (Quotation.subtotal quotation)
         && negb (num_eq_zero subtotal)
      then
        let payload := dump_Quotation quotation in
        let payload := <["subtotal" := JNum subtotal]> payload in
        let payload :=
          <["total" := JNum (num_add
                               (num_sub subtotal (Quotation.discount quotation))
                               (Quotation.tax quotation))]> payload in
        create_document now "quotation" payload db
      else create_document now "quotation" (dump_Quotation quotation) db in
    let doc := find_one db' "quotation" (ObjectId_new new_id) in
    (Ok 201 (to_str_id <$> doc), db').

Definition update_quotation (now : Z) (quotation_id : string)
    (payload : gmap string json) (db : database) :=
  update_by_id now "quotation" quotation_id payload db.


(** ** Performance summary *)

Record summary : Type := {
  total_quotations : nat;
  last30_quotations : nat;
  total_revenue : json;
  avg_quote_value : json;
}.

(** [timedelta(days=30)], in milliseconds *)
Definition days30 : Z := 30 * 24 * 60 * 60 * 1000.

Definition performance (now : Z) (employee_id : string) (db : database)
    : response summary * database :=
  if negb (ObjectId_is_valid employee_id)
  then (HTTPException 400 "Invalid employee_id", db)
  else
    let q : gmap string cond := {[ "employee_id" := Equals employee_id ]} in
    let total_quotes := count_documents db "quotation" q in
    let last30 := now - days30 in
    let last30_quotes :=
      count_documents db "quotation" (<["created_at" := Gte last30]> q) in
    let agg := aggregate db "quotation" q in
    let '(revenue, avg) :=
      foldl (λ _ a, (revenue a, avg a)) (JNum (num_of_Z 0), JNum (num_of_Z 0))
            agg in
    (Ok 200 {| total_quotations := total_quotes;
               last30_quotations := last30_quotes;
               total_revenue := revenue;
               avg_quote_value := avg |}, db).

(** ** The API as a transition system

    A request, and the database it leaves behind when it is handled at
    time [now].  The read-only endpoints are left out: they return the
    database they were given. *)
Inductive request : Type :=
| CreateUser (user : User.t)
| CreateCategory (category : HouseCategory.t)
| CreateSubcategory (sub : Subcategory.t)
| CreatePackage (pkg : Package.t)
| CreateQuotation (quotation : Quotation.t)
| Update (c : string) (_id : string) (payload : gmap string json)
| Delete (c : string) (_id : string).

Definition handle (now : Z) (r : request) (db : database) : database :=
  match r with
  | CreateUser user => (create_user now user db).2
  | CreateCategory category => (create_category now category db).2
  | CreateSubcategory sub => (create_subcategory now sub db).2
  | CreatePackage pkg => (create_package now pkg db).2
  | CreateQuotation quotation => (create_quotation now quotation db).2
  | Update c _id payload => (update_by_id now c _id payload db).2
  | Delete c _id => (delete_by_id c _id db).2
  end.

(** The databases that the API builds from the empty one, with the time of
    the last request; the clock does not run backwards. *)
Inductive reachable : Z → database → Prop :=
| reachable_init t : reachable t ∅
| reachable_step t db t' r :
    reachable t db → t ≤ t' → reachable t' (handle t' r db).

(** ** Vocabulary of the properties

    What the statements below speak of: the documents that the handlers
    write, the conditions of the specification, and the shapes a request
    can give to the database. *)

(** The document that [create_document] writes for [data] at [now]. *)
Definition stamped (now : Z) (data : gmap string json) : document :=
  <["updated_at" := Datetime now]>
    (<["created_at" := Datetime now]> (J <$> data)).

(** The three checks at the head of [create_quotation] pass. *)
Definition references_ok (quotation : Quotation.t) : bool :=
  ObjectId_is_valid (Quotation.employee_id quotation)
  && negb (present_and_invalid (Quotation.house_category_id quotation))
  && negb (present_and_invalid (Quotation.subcategory_id quotation)).

(** The sum of the [total] fields of the items. *)
Definition items_sum (quotation : Quotation.t) : num :=
  sum (QuotationItem.total <$> Quotation.items quotation).

(** The sentinel rule of [create_quotation]. *)
Definition overrides (quotation : Quotation.t) : bool :=
  num_eq_zero (Quotation.subtotal quotation)
  && negb (num_eq_zero (items_sum quotation)).

(** The dict that a quotation is stored from. *)
Definition quotation_payload (quotation : Quotation.t) : gmap string json :=
  if overrides quotation then
    <["total" := JNum (num_add
                         (num_sub (items_sum quotation)
                                  (Quotation.discount quotation))
                         (Quotation.tax quotation))]>
      (<["subtotal" := JNum (items_sum quotation)]>
         (dump_Quotation quotation))
  else dump_Quotation quotation.

(** The document after a [$set] of top-level fields: the payload with its
    [updated_at], over the old fields. *)
Definition merged (now : Z) (payload : gmap string json) (d : document)
    : document :=
  with_updated_at now payload ∪ d.

(** The places where a request carries an identifier: the path of an
    update, a delete or a read; a reference field of a body; the
    [employee_id] of the performance query; a filter of a list endpoint.
    What else the request carries comes with the place. *)
Inductive id_place : Type :=
| PathUpdate (c : string) (payload : gmap string json)
| PathDelete (c : string)
| PathGetQuotation
| SubcategoryCategory (sub : Subcategory.t)
| PackageCategory (pkg : Package.t)
| PackageSubcategory (pkg : Package.t)
| QuotationEmployee (quotation : Quotation.t)
| QuotationHouseCategory (quotation : Quotation.t)
| QuotationSubcategory (quotation : Quotation.t)
| PerformanceEmployee
| FilterSubcategories
| FilterPackagesCategory (subcategory_id : option string)
| FilterPackagesSubcategory (category_id : option string)
| FilterQuotationsEmployee (status : option string).

Definition Subcategory_with_category (sub : Subcategory.t) (x : string)
    : Subcategory.t :=
  {| Subcategory.name := Subcategory.name sub;
     Subcategory.description := Subcategory.description sub;
     Subcategory.category_id := x;
     Subcategory.is_active := Subcategory.is_active sub |}.

Definition Package_with (pkg : Package.t)
    (category_id subcategory_id : option string) : Package.t :=
  {| Package.name := Package.name pkg;
     Package.description := Package.description pkg;
     Package.category_id := category_id;
     Package.subcategory_id := subcategory_id;
     Package.features := Package.features pkg;
     Package.price := Package.price pkg;
     Package.is_active := Package.is_active pkg |}.

Definition Quotation_with (quotation : Quotation.t) (employee_id : string)
    (house_category_id subcategory_id : option string) : Quotation.t :=
  {| Quotation.employee_id := employee_id;
     Quotation.client_name := Quotation.client_name quotation;
     Quotation.client_contact := Quotation.client_contact quotation;
     Quotation.house_category_id := house_category_id;
     Quotation.subcategory_id := subcategory_id;
     Quotation.items := Quotation.items quotation;
     Quotation.subtotal := Quotation.subtotal quotation;
     Quotation.discount := Quotation.discount quotation;
     Quotation.tax := Quotation.tax quotation;
     Quotation.total := Quotation.total quotation;
     Quotation.status := Quotation.status quotation;
     Quotation.notes := Quotation.notes quotation |}.

Definition outcome {A} (r : response A * database) : nat * database :=
  (status_of r.1, r.2).

(** The request with [x] in the given place, handled at [now]: its status
    and the database after it. *)
Definition handle_with_id (now : Z) (p : id_place) (x : string)
    (db : database) : nat * database :=
  match p with
  | PathUpdate c payload => outcome (update_by_id now c x payload db)
  | PathDelete c => outcome (delete_by_id c x db)
  | PathGetQuotation => outcome (get_quotation x db)
  | SubcategoryCategory sub =>
      outcome (create_subcategory now (Subcategory_with_category sub x) db)
  | PackageCategory pkg =>
      outcome (create_package now
                 (Package_with pkg (Some x) (Package.subcategory_id pkg)) db)
  | PackageSubcategory pkg =>
      outcome (create_package now
                 (Package_with pkg (Package.category_id pkg) (Some x)) db)
  | QuotationEmployee quotation =>
      outcome (create_quotation now
                 (Quotation_with quotation x
                    (Quotation.house_category_id quotation)
                    (Quotation.subcategory_id quotation)) db)
  | QuotationHouseCategory quotation =>
      outcome (create_quotation now
                 (Quotation_with quotation (Quotation.employee_id quotation)
                    (Some x) (Quotation.subcategory_id quotation)) db)
  | QuotationSubcategory quotation =>
      outcome (create_quotation now
                 (Quotation_with quotation (Quotation.employee_id quotation)
                    (Quotation.house_category_id quotation) (Some x)) db)
  | PerformanceEmployee => outcome (performance now x db)
  | FilterSubcategories => outcome (list_subcategories (Some x) db)
  | FilterPackagesCategory subcategory_id =>
      outcome (list_packages (Some x) subcategory_id db)
  | FilterPackagesSubcategory category_id =>
      outcome (list_packages category_id (Some x) db)
  | FilterQuotationsEmployee status =>
      outcome (list_quotations (Some x) status db)
  end.

(** The claim as the specification words it: an identifier that is not
    well formed is answered with 400, wherever it stands, and the store is
    as before. *)
Definition invalid_id_rejected_everywhere : Prop :=
  ∀ x, ObjectId_is_valid x = false →
  ∀ now p db, handle_with_id now p x db = (400%nat, db).

(** Where the code checks the identifier: not in the filters of the list
    endpoints; in an optional reference when it is not empty; everywhere
    else. *)
Definition checked (p : id_place) (x : string) : bool :=
  match p with
  | FilterSubcategories | FilterPackagesCategory _
  | FilterPackagesSubcategory _ | FilterQuotationsEmployee _ => false
  | PackageCategory _ | PackageSubcategory _
  | QuotationHouseCategory _ | QuotationSubcategory _ =>
      negb (bool_decide (x = ""))
  | _ => true
  end.

Definition is_filter (p : id_place) : bool :=
  match p with
  | FilterSubcategories | FilterPackagesCategory _
  | FilterPackagesSubcategory _ | FilterQuotationsEmployee _ => true
  | _ => false
  end.

(** A field that is exactly the string [s]. *)
Definition field_is (f s : string) (d : document) : Prop :=
  d !! f = Some (J (JStr s)).

#[export] Instance field_is_dec f s d : Decision (field_is f s d).
Proof.
  unfold field_is. destruct (d !! f) as [[[| | |s'| |]|]|];
    try (right; discriminate).
  destruct (decide (s' = s)) as [->|Hne]; [by left|].
  right. intros [= ?]. done.
Defined.

(** A field that is the string [s], or an array with the string [s] among
    its elements: what the store's equality with [s] matches. *)
Definition carries (f s : string) (d : document) : Prop :=
  d !! f = Some (J (JStr s))
  ∨ ∃ l, d !! f = Some (J (JArr l)) ∧ JStr s ∈ l.

Lemma is_str_spec s j : is_str s j ↔ j = JStr s.
Proof.
  destruct j; cbn; try (split; [intros []|discriminate]).
  rewrite bool_decide_spec. split; [by intros ->|by intros [= ->]].
Qed.

Lemma existsb_is_str s l : existsb (is_str s) l ↔ JStr s ∈ l.
Proof.
  induction l as [|j l IH]; cbn.
  - split; [intros []|by intros ?%elem_of_nil].
  - rewrite orb_True, IH, elem_of_cons, is_str_spec.
    split; (intros [?|?]; [by left|by right]).
Qed.

Lemma holds_Equals s v :
  holds (Equals s) v
  ↔ v = Some (J (JStr s)) ∨ ∃ l, v = Some (J (JArr l)) ∧ JStr s ∈ l.
Proof.
  destruct v as [[[| | |s'|l|]|]|]; cbn;
    try (split; [intros []|by intros [?|(? & ? & _)]]).
  - rewrite bool_decide_spec. split.
    + intros ->. by left.
    + by intros [[= ->]|(? & ? & _)].
  - rewrite existsb_is_str. split.
    + intros Hin. right. by exists l.
    + by intros [?|(l' & [= <-] & Hin)].
Qed.

#[export] Instance carries_dec f s d : Decision (carries f s d).
Proof.
  refine (cast_if (decide (holds (Equals s) (d !! f))));
    unfold carries; by rewrite <- holds_Equals.
Defined.

(** A filter is supplied when the query parameter is there and is not the
    empty string; a document meets a supplied filter when its field
    carries that string. *)
Definition meets (f : string) (x : option string) (d : document) : Prop :=
  match x with
  | Some s => s ≠ "" → carries f s d
  | None => True
  end.

#[export] Instance meets_dec f x d : Decision (meets f x d).
Proof. unfold meets. destruct x; apply _. Defined.

(** Every creation timestamp in the store is at most [t]. *)
Definition stamps_not_after (t : Z) (db : database) : Prop :=
  ∀ c k d τ, coll db c !! k = Some d → created_at d = Some τ → τ ≤ t.

(** What a request handled at [now] can do to the database: nothing, or
    insert a freshly stamped document, or write the document that [$set]
    makes of a document and a payload, or delete a document. *)
Inductive effect (now : Z) (db : database) : database → Prop :=
| effect_none : effect now db db
| effect_insert c k data :
    effect now db (<[c := <[k := stamped now data]> (coll db c)]> db)
| effect_update c k payload d d' :
    coll db c !! k = Some d →
    apply_set (with_updated_at now payload) d = Some d' →
    effect now db (<[c := <[k := d']> (coll db c)]> db)
| effect_delete c k :
    effect now db (<[c := delete k (coll db c)]> db).

(** A quotation of the employee whose creation timestamp lies in
    [[now - 30 days, now]]. *)
Definition in_last30 (now : Z) (employee_id : string) (d : document) : Prop :=
  carries "employee_id" employee_id d
  ∧ match created_at d with
    | Some τ => now - days30 ≤ τ ≤ now
    | None => False
    end.

#[export] Instance in_last30_dec now e d : Decision (in_last30 now e d).
Proof. unfold in_last30. destruct (created_at d); apply _. Defined.

(** A quotation of the employee whose creation timestamp is not before
    [now - 30 days]. *)
Definition since_last30 (now : Z) (employee_id : string) (d : document)
    : Prop :=
  carries "employee_id" employee_id d
  ∧ match created_at d with
    | Some τ => now - days30 ≤ τ
    | None => False
    end.

#[export] Instance since_last30_dec now e d : Decision (since_last30 now e d).
Proof. unfold since_last30. destruct (created_at d); apply _. Defined.


(** The claim on the quotation list as the specification words it, in
    the part that says which records come back: a listed record has, for
    every supplied filter, exactly the filter string in the field. *)
Definition lists_by_exact_equality : Prop :=
  ∀ employee_id status (db : database) listed b,
    (list_quotations employee_id status db).1 = Ok 200 listed →
    b ∈ listed →
    (∀ s, employee_id = Some s → s ≠ "" →
          b !! "employee_id" = Some (JStr s))
    ∧ (∀ s, status = Some s → s ≠ "" → b !! "status" = Some (JStr s)).

(** The claim on [last30_quotations] as the specification words it: the
    count of the window [[now - 30 days, now]]. *)
Definition last30_is_window_count : Prop :=
  ∀ now employee_id (db : database) r,
    performance now employee_id db = (Ok 200 r, db) →
    last30_quotations r
    = length (filter (λ x : row, in_last30 now employee_id x.2)
                     (map_to_list (coll db "quotation"))).

(** * Properties *)

(** ** The store *)

Lemma coll_insert (db : database) c m : coll (<[c := m]> db) c = m.
Proof. unfold coll. by rewrite lookup_insert_eq. Qed.

Lemma coll_insert_ne (db : database) c c' m :
  c ≠ c' → coll (<[c := m]> db) c' = coll db c'.
Proof. intros Hne. unfold coll. by rewrite lookup_insert_ne. Qed.

Lemma coll_empty c : coll ∅ c = ∅.
Proof. unfold coll. by rewrite lookup_empty. Qed.

Lemma fresh_id_free (db : database) c :
  coll db c !! fresh (dom (coll db c)) = None.
Proof. apply not_elem_of_dom, is_fresh. Qed.

Lemma create_document_eq now c data (db : database) :
  create_document now c data db
  = (ObjectId_str (fresh (dom (coll db c))),
     <[c := <[fresh (dom (coll db c)) := stamped now data]> (coll db c)]> db).
Proof. reflexivity. Qed.

(** Inserting and reading back, as [insert_with_schema] and
    [create_quotation] do: the document just written is found. *)
Lemma create_then_find now c data (db : database) :
  let k := fresh (dom (coll db c)) in
  find_one (create_document now c data db).2 c
           (ObjectId_new (create_document now c data db).1)
  = Some (k, stamped now data).
Proof.
  rewrite create_document_eq. cbn [fst snd].
  unfold find_one. by rewrite ObjectId_new_str, coll_insert, lookup_insert_eq.
Qed.

Lemma insert_with_schema_eq now c data (db : database) :
  let k := fresh (dom (coll db c)) in
  insert_with_schema now c data db
  = (Ok 201 (Some (to_str_id (k, stamped now data))),
     <[c := <[k := stamped now data]> (coll db c)]> db).
Proof.
  intros k. unfold insert_with_schema.
  pose proof (create_then_find now c data db) as Hfind.
  rewrite create_document_eq in *. cbn [fst snd] in Hfind.
  by rewrite Hfind.
Qed.

(** ** Creating a quotation *)

Lemma computed_subtotal_sum quotation :
  computed_subtotal quotation = items_sum quotation.
Proof.
  unfold computed_subtotal, items_sum. by destruct (Quotation.items quotation).
Qed.

(** Without items the computed subtotal is the literal [0], which is
    false: the quotation is stored as sent. *)
Lemma no_items_no_override quotation :
  Quotation.items quotation = [] → overrides quotation = false.
Proof.
  intros Hnil. unfold overrides, items_sum. rewrite Hnil. cbn [fmap list_fmap].
  unfold sum. cbn [foldl]. rewrite num_eq_zero_0. apply andb_false_r.
Qed.

Lemma create_quotation_valid now quotation (db : database) :
  references_ok quotation = true →
  let k := fresh (dom (coll db "quotation")) in
  let d := stamped now (quotation_payload quotation) in
  create_quotation now quotation db
  = (Ok 201 (Some (to_str_id (k, d))),
     <["quotation" := <[k := d]> (coll db "quotation")]> db).
Proof.
  intros Href k d. unfold references_ok in Href.
  apply andb_prop in Href as [Href Hsub].
  apply andb_prop in Href as [Hemp Hcat].
  apply negb_true_iff in Hcat, Hsub.
  unfold create_quotation.
  rewrite Hemp, Hcat, Hsub. cbn [negb].
  rewrite computed_subtotal_sum.
  subst d. unfold quotation_payload, overrides.
  destruct (num_eq_zero (Quotation.subtotal quotation)
            && negb (num_eq_zero (items_sum quotation)));
    match goal with
    | |- context [create_document ?n ?c ?data ?db] =>
        pose proof (create_then_find n c data db) as Hfind;
        rewrite (create_document_eq n c data db) in *
    end; cbn [fst snd] in Hfind; by rewrite Hfind.
Qed.

Lemma to_str_id_lookup (k : ObjectId) (d : document) f j :
  d !! f = Some (J j) → f ≠ "_id" → to_str_id (k, d) !! f = Some j.
Proof.
  intros Hd Hf. unfold to_str_id. cbn [fst snd].
  rewrite lookup_insert_ne by done. by rewrite lookup_fmap, Hd.
Qed.

(** C1. A quotation that passes the reference checks, is sent with
    subtotal 0 and has items whose totals sum to a nonzero S is stored, and
    returned with status 201, with subtotal S and total S - discount + tax. *)
Theorem create_quotation_derives_totals now quotation (db : database) :
  references_ok quotation = true →
  num_eq_zero (Quotation.subtotal quotation) = true →
  num_eq_zero (items_sum quotation) = false →
  ∃ k d db' body,
    create_quotation now quotation db = (Ok 201 (Some body), db')
    ∧ coll db "quotation" !! k = None
    ∧ coll db' "quotation" !! k = Some d
    ∧ body = to_str_id (k, d)
    ∧ d !! "subtotal" = Some (J (JNum (items_sum quotation)))
    ∧ d !! "total"
      = Some (J (JNum (num_add
                         (num_sub (items_sum quotation)
                                  (Quotation.discount quotation))
                         (Quotation.tax quotation))))
    ∧ body !! "subtotal" = Some (JNum (items_sum quotation))
    ∧ body !! "total"
      = Some (JNum (num_add
                      (num_sub (items_sum quotation)
                               (Quotation.discount quotation))
                      (Quotation.tax quotation))).
Proof.
  intros Href Hzero Hsum.
  pose proof (create_quotation_valid now quotation db Href) as Hcreate.
  cbv zeta in Hcreate.
  set (k := fresh (dom (coll db "quotation"))) in *.
  assert (Hpay : quotation_payload quotation
                 = <["total" := JNum (num_add
                         (num_sub (items_sum quotation)
                                  (Quotation.discount quotation))
                         (Quotation.tax quotation))]>
                     (<["subtotal" := JNum (items_sum quotation)]>
                        (dump_Quotation quotation))).
  { unfold quotation_payload, overrides. by rewrite Hzero, Hsum. }
  set (d := stamped now (quotation_payload quotation)) in *.
  assert (Hsub : d !! "subtotal" = Some (J (JNum (items_sum quotation)))).
  { subst d. unfold stamped. rewrite Hpay.
    rewrite !lookup_insert_ne, lookup_fmap by done.
    by rewrite lookup_insert_ne, lookup_insert_eq by done. }
  assert (Htot : d !! "total"
                 = Some (J (JNum (num_add
                         (num_sub (items_sum quotation)
                                  (Quotation.discount quotation))
                         (Quotation.tax quotation))))).
  { subst d. unfold stamped. rewrite Hpay.
    rewrite !lookup_insert_ne, lookup_fmap by done.
    by rewrite lookup_insert_eq. }
  exists k, d, (<["quotation" := <[k := d]> (coll db "quotation")]> db),
    (to_str_id (k, d)).
  split_and!;
    first [ apply fresh_id_free
          | by rewrite coll_insert, lookup_insert_eq
          | by apply to_str_id_lookup
          | done ].
Qed.

(** C2. A quotation that passes the reference checks and does not meet the
    sentinel rule (its subtotal is nonzero, or its items' totals sum to 0)
    is stored as the caller sent it, with the two timestamps added: in
    particular subtotal and total are the supplied ones, whatever the
    items say. *)
Theorem create_quotation_keeps_supplied now quotation (db : database) :
  references_ok quotation = true →
  num_eq_zero (Quotation.subtotal quotation) = false
  ∨ num_eq_zero (items_sum quotation) = true →
  ∃ k d db' body,
    create_quotation now quotation db = (Ok 201 (Some body), db')
    ∧ coll db "quotation" !! k = None
    ∧ coll db' "quotation" !! k = Some d
    ∧ body = to_str_id (k, d)
    ∧ d = stamped now (dump_Quotation quotation)
    ∧ d !! "subtotal" = Some (J (JNum (Quotation.subtotal quotation)))
    ∧ d !! "total" = Some (J (JNum (Quotation.total quotation)))
    ∧ body !! "subtotal" = Some (JNum (Quotation.subtotal quotation))
    ∧ body !! "total" = Some (JNum (Quotation.total quotation)).
Proof.
  intros Href Hno.
  pose proof (create_quotation_valid now quotation db Href) as Hcreate.
  cbv zeta in Hcreate.
  set (k := fresh (dom (coll db "quotation"))) in *.
  assert (Hpay : quotation_payload quotation = dump_Quotation quotation).
  { unfold quotation_payload, overrides.
    destruct Hno as [-> | ->]; [done|]. by rewrite andb_false_r. }
  rewrite Hpay in Hcreate.
  exists k, (stamped now (dump_Quotation quotation)),
    (<["quotation" := <[k := stamped now (dump_Quotation quotation)]>
                        (coll db "quotation")]> db),
    (to_str_id (k, stamped now (dump_Quotation quotation))).
  split_and!;
    first [ apply fresh_id_free
          | by rewrite coll_insert, lookup_insert_eq
          | by apply to_str_id_lookup
          | done ].
Qed.

(** ** Update and delete by id *)

Lemma update_by_id_invalid now c _id payload (db : database) :
  ObjectId_is_valid _id = false →
  update_by_id now c _id payload db = (HTTPException 400 "Invalid id", db).
Proof. intros Hid. unfold update_by_id. by rewrite Hid. Qed.

Lemma delete_by_id_invalid c _id (db : database) :
  ObjectId_is_valid _id = false →
  delete_by_id c _id db = (HTTPException 400 "Invalid id", db).
Proof. intros Hid. unfold delete_by_id. by rewrite Hid. Qed.

Lemma update_by_id_absent now c _id payload (db : database) :
  ObjectId_is_valid _id = true →
  coll db c !! ObjectId_new _id = None →
  update_by_id now c _id payload db = (HTTPException 404 "Not found", db).
Proof.
  intros Hid Hnone. unfold update_by_id, find_one_and_update.
  by rewrite Hid, Hnone.
Qed.

Lemma update_by_id_applied now c _id payload (db : database) d d' :
  ObjectId_is_valid _id = true →
  coll db c !! ObjectId_new _id = Some d →
  apply_set (with_updated_at now payload) d = Some d' →
  update_by_id now c _id payload db
  = (Ok 200 (to_str_id (ObjectId_new _id, d')),
     <[c := <[ObjectId_new _id := d']> (coll db c)]> db).
Proof.
  intros Hid Hd Hset. unfold update_by_id, find_one_and_update.
  by rewrite Hid, Hd, Hset.
Qed.

Lemma update_by_id_refused now c _id payload (db : database) d :
  ObjectId_is_valid _id = true →
  coll db c !! ObjectId_new _id = Some d →
  apply_set (with_updated_at now payload) d = None →
  update_by_id now c _id payload db
  = (HTTPException 500 "Internal Server Error", db).
Proof.
  intros Hid Hd Hset. unfold update_by_id, find_one_and_update.
  by rewrite Hid, Hd, Hset.
Qed.

Lemma has_char_root key : has_char "." key = false → root key = key.
Proof.
  induction key as [|c key IH]; [done|]. cbn.
  destruct (Ascii.eqb c "."); [done|]. cbn. intros Hk. by rewrite IH.
Qed.

Lemma root_plain key : plain key = true → root key = key.
Proof.
  unfold plain. rewrite !andb_true_iff, !negb_true_iff.
  intros [[[_ Hdot] _] _]. by apply has_char_root.
Qed.

(** An update by plain field names, when it is done, lays the payload and
    the new [updated_at] over the document. *)
Lemma apply_set_merges now payload (d d' : document) :
  (∀ key, is_Some (payload !! key) → plain key = true) →
  apply_set (with_updated_at now payload) d = Some d' →
  d' = merged now payload d.
Proof.
  intros Hplain Hset. apply map_eq. intros G.
  destruct (apply_set_written _ _ _ _ Hset) as [Hstamp Hfields].
  unfold merged, with_updated_at.
  destruct (decide (G = "updated_at")) as [->|HG].
  { rewrite Hstamp. symmetry. apply lookup_union_Some_l, lookup_insert_eq. }
  rewrite lookup_union, lookup_insert_ne, lookup_fmap by done.
  destruct (payload !! G) as [v|] eqn:Hv; cbn.
  - rewrite (Hfields G v); [by destruct (d !! G)|by eauto|done..].
  - rewrite (apply_set_frame _ _ _ _ G Hset HG); [by destruct (d !! G)|].
    intros key Hkey. rewrite (root_plain key) by eauto.
    intros ->. rewrite Hv in Hkey. by destruct Hkey.
Qed.


(** C7. Deleting by the id of an existing record succeeds, and deleting by
    the same id once more answers 404 "Not found". *)
Theorem delete_then_delete_again c _id (db : database) :
  ObjectId_is_valid _id = true →
  is_Some (coll db c !! ObjectId_new _id) →
  ∃ db',
    delete_by_id c _id db = (Ok 200 {[ "deleted" := JBool true ]}, db')
    ∧ coll db' c !! ObjectId_new _id = None
    ∧ delete_by_id c _id db' = (HTTPException 404 "Not found", db').
Proof.
  intros Hid [d Hd].
  exists (<[c := delete (ObjectId_new _id) (coll db c)]> db).
  assert (Hgone : coll (<[c := delete (ObjectId_new _id) (coll db c)]> db) c
                  !! ObjectId_new _id = None).
  { by rewrite coll_insert, lookup_delete_eq. }
  split_and!; [|done|].
  - unfold delete_by_id, delete_one. by rewrite Hid, Hd.
  - unfold delete_by_id, delete_one. by rewrite Hid, Hgone.
Qed.

(** ** Identifiers that are not well formed *)

Lemma present_and_invalid_Some x :
  ObjectId_is_valid x = false → x ≠ "" → present_and_invalid (Some x) = true.
Proof.
  intros Hx Hne. unfold present_and_invalid, truthy.
  rewrite decide_False by done. by rewrite Hx.
Qed.

(** C3, as the code has it.  An identifier that is not well formed is
    answered with 400, and the store is left as it was, when it is a path
    id, the [employee_id] of the performance query, the [employee_id] of a
    quotation, the [category_id] of a subcategory, or a non-empty optional
    reference of a package or a quotation.  As a filter of a list endpoint
    it is not checked: the answer is 200, and the store is left as it was. *)
Theorem invalid_id_rejected_where_checked x now p (db : database) :
  ObjectId_is_valid x = false →
  (checked p x = true → handle_with_id now p x db = (400%nat, db))
  ∧ (is_filter p = true → handle_with_id now p x db = (200%nat, db)).
Proof.
  intros Hx. split.
  - destruct p; cbn [checked handle_with_id]; intros Hc; try done.
    + by rewrite update_by_id_invalid.
    + by rewrite delete_by_id_invalid.
    + unfold get_quotation. by rewrite Hx.
    + unfold create_subcategory. cbn. by rewrite Hx.
    + apply negb_true_iff, bool_decide_eq_false in Hc.
      unfold create_package. cbn [Package_with Package.category_id].
      by rewrite present_and_invalid_Some.
    + apply negb_true_iff, bool_decide_eq_false in Hc.
      unfold create_package.
      cbn [Package_with Package.category_id Package.subcategory_id].
      rewrite (present_and_invalid_Some x) by done.
      by destruct (present_and_invalid (Package.category_id pkg)).
    + unfold create_quotation. cbn. by rewrite Hx.
    + apply negb_true_iff, bool_decide_eq_false in Hc.
      unfold create_quotation.
      cbn [Quotation_with Quotation.employee_id Quotation.house_category_id].
      rewrite (present_and_invalid_Some x) by done.
      by destruct (ObjectId_is_valid (Quotation.employee_id quotation)).
    + apply negb_true_iff, bool_decide_eq_false in Hc.
      unfold create_quotation.
      cbn [Quotation_with Quotation.employee_id Quotation.house_category_id
           Quotation.subcategory_id].
      rewrite (present_and_invalid_Some x) by done.
      destruct (ObjectId_is_valid (Quotation.employee_id quotation)); [|done].
      by destruct (present_and_invalid (Quotation.house_category_id quotation)).
    + unfold performance. by rewrite Hx.
  - by destruct p.
Qed.

(** ** Listing *)

Lemma matches_empty d : matches ∅ d.
Proof. apply map_Forall_empty. Qed.

Lemma matches_singleton f s d : matches {[ f := Equals s ]} d ↔ carries f s d.
Proof. unfold matches. rewrite map_Forall_singleton. apply holds_Equals. Qed.

Lemma matches_with_filter f x q d :
  q !! f = None → matches (with_filter f x q) d ↔ meets f x d ∧ matches q d.
Proof.
  intros Hq. unfold with_filter, truthy, meets.
  destruct x as [s|]; [|tauto].
  destruct (decide (s = "")) as [->|Hne]; [tauto|].
  unfold matches. rewrite map_Forall_insert by done.
  rewrite holds_Equals. unfold carries. tauto.
Qed.

Lemma with_filter_lookup_ne f g x (q : gmap string cond) :
  f ≠ g → with_filter f x q !! g = q !! g.
Proof.
  intros Hne. unfold with_filter. destruct (truthy x); [|done].
  by rewrite lookup_insert_ne.
Qed.

Lemma with_filter_empty_string f (q : gmap string cond) :
  with_filter f (Some "") q = with_filter f None q.
Proof. reflexivity. Qed.

Lemma find_all (db : database) c : find db c ∅ = map_to_list (coll db c).
Proof.
  unfold find. induction (map_to_list (coll db c)) as [|r l IH]; [done|].
  rewrite filter_cons_True by apply matches_empty. by rewrite IH.
Qed.

#[export] Instance newest_first_total : Total newest_first.
Proof.
  intros a b. unfold newest_first.
  destruct (created_at a.2), (created_at b.2); try tauto. lia.
Qed.

#[export] Instance newest_first_trans : Transitive newest_first.
Proof.
  intros a b c. unfold newest_first.
  destruct (created_at a.2), (created_at b.2), (created_at c.2);
    try tauto. lia.
Qed.

Lemma StronglySorted_lookup {A} (R : relation A) (l : list A) i j a b :
  StronglySorted R l → (i < j)%nat →
  l !! i = Some a → l !! j = Some b → R a b.
Proof.
  intros Hsorted. revert i j.
  induction Hsorted as [|x l Hl IH Hx]; intros i j Hij Ha Hb; [done|].
  destruct j as [|j]; [lia|]. cbn in Hb.
  destruct i as [|i]; cbn in Ha.
  - injection Ha as ->. rewrite Forall_forall in Hx.
    by eapply Hx, list_elem_of_lookup_2.
  - apply (IH i j); [lia|done..].
Qed.

Lemma sort_created_desc_sorted l :
  StronglySorted newest_first (sort_created_desc l).
Proof. apply StronglySorted_merge_sort; apply _. Qed.

Lemma sort_created_desc_perm l : sort_created_desc l ≡ₚ l.
Proof. apply merge_sort_Permutation. Qed.

(** C8, as the code has it.  Listing quotations with optional
    [employee_id] and [status] filters answers 200 with the rows of the
    collection that meet every supplied filter, each of them once; a row
    meets a filter when its field is the filter string or an array with
    that string among its elements, and both filters have to hold; the
    rows come newest first: of two rows with creation timestamps the one
    listed first is not the older.  A filter counts as supplied when it
    is not the empty string. *)
Theorem list_quotations_filtered_newest_first employee_id status
    (db : database) :
  ∃ rows,
    list_quotations employee_id status db = (Ok 200 (to_str_id <$> rows), db)
    ∧ rows ≡ₚ filter (λ r, meets "employee_id" employee_id r.2
                           ∧ meets "status" status r.2)
                     (map_to_list (coll db "quotation"))
    ∧ (∀ k d, (k, d) ∈ rows ↔
         coll db "quotation" !! k = Some d
         ∧ meets "employee_id" employee_id d ∧ meets "status" status d)
    ∧ NoDup rows
    ∧ StronglySorted newest_first rows
    ∧ (∀ i j a b ta tb,
         (i < j)%nat → rows !! i = Some a → rows !! j = Some b →
         created_at a.2 = Some ta → created_at b.2 = Some tb → tb ≤ ta).
Proof.
  set (q := with_filter "status" status
              (with_filter "employee_id" employee_id ∅)).
  set (wanted := λ r : row, meets "employee_id" employee_id r.2
                            ∧ meets "status" status r.2).
  assert (Hq : ∀ d, matches q d ↔
                 meets "employee_id" employee_id d ∧ meets "status" status d).
  { intros d. subst q. rewrite matches_with_filter
      by (by rewrite with_filter_lookup_ne).
    rewrite matches_with_filter by done.
    pose proof (matches_empty d). tauto. }
  assert (Hfind : find db "quotation" q
                  = filter wanted (map_to_list (coll db "quotation"))).
  { unfold find. apply list_filter_iff. intros [k d]. apply Hq. }
  exists (sort_created_desc (find db "quotation" q)).
  assert (Hperm : sort_created_desc (find db "quotation" q)
                  ≡ₚ filter wanted (map_to_list (coll db "quotation"))).
  { by rewrite sort_created_desc_perm, Hfind. }
  pose proof (sort_created_desc_sorted (find db "quotation" q)) as Hsorted.
  split_and!; [done|done| | |done|].
  - intros k d. rewrite Hperm, list_elem_of_filter, elem_of_map_to_list.
    subst wanted. cbn. tauto.
  - rewrite Hperm. apply NoDup_filter, NoDup_map_to_list.
  - intros i j a b ta tb Hij Ha Hb Hta Htb.
    pose proof (StronglySorted_lookup _ _ _ _ _ _ Hsorted Hij Ha Hb) as Hab.
    unfold newest_first in Hab. by rewrite Hta, Htb in Hab.
Qed.

(** C10. On every list endpoint a filter sent as the empty string counts
    as a filter not sent: the answer is that of the request without it,
    and when no other filter is sent it is the whole collection, each row
    once, whatever its fields hold. *)
Theorem empty_filter_is_no_filter (db : database) :
  list_users (Some "") db = list_users None db
  ∧ list_subcategories (Some "") db = list_subcategories None db
  ∧ (∀ subcategory_id,
       list_packages (Some "") subcategory_id db
       = list_packages None subcategory_id db)
  ∧ (∀ category_id,
       list_packages category_id (Some "") db
       = list_packages category_id None db)
  ∧ (∀ status,
       list_quotations (Some "") status db = list_quotations None status db)
  ∧ (∀ employee_id,
       list_quotations employee_id (Some "") db
       = list_quotations employee_id None db)
  ∧ (∀ c, list_sorted db c ∅
          = to_str_id <$> sort_created_desc (map_to_list (coll db c))
          ∧ sort_created_desc (map_to_list (coll db c))
            ≡ₚ map_to_list (coll db c))
  ∧ list_users (Some "") db = (Ok 200 (list_sorted db "user" ∅), db)
  ∧ list_subcategories (Some "") db
    = (Ok 200 (list_sorted db "subcategory" ∅), db)
  ∧ list_packages (Some "") (Some "") db
    = (Ok 200 (list_sorted db "package" ∅), db)
  ∧ list_quotations (Some "") (Some "") db
    = (Ok 200 (list_sorted db "quotation" ∅), db).
Proof.
  split_and!; try reflexivity.
  intros c. split; [|apply sort_created_desc_perm].
  unfold list_sorted. by rewrite find_all.
Qed.

(** ** Performance summary *)

Lemma matches_insert f c (q : gmap string cond) d :
  q !! f = None → matches (<[f := c]> q) d ↔ holds c (d !! f) ∧ matches q d.
Proof. intros Hq. unfold matches. by rewrite map_Forall_insert. Qed.

Lemma holds_Gte t (d : document) :
  holds (Gte t) (d !! "created_at")
  ↔ match created_at d with Some τ => t ≤ τ | None => False end.
Proof.
  unfold created_at. destruct (d !! "created_at") as [[j|τ]|]; cbn.
  - by destruct j.
  - apply bool_decide_spec.
  - done.
Qed.

Lemma filter_ext_in {A} (P Q : A → Prop) `{!∀ x, Decision (P x)}
    `{!∀ x, Decision (Q x)} (l : list A) :
  (∀ x, x ∈ l → P x ↔ Q x) → filter P l = filter Q l.
Proof.
  induction l as [|a l IH]; intros Hext; [done|].
  rewrite !filter_cons.
  rewrite IH by (intros x Hx; apply Hext; by right).
  destruct (decide (P a)) as [HP|HP], (decide (Q a)) as [HQ|HQ]; try done.
  - apply Hext in HP; [done|by left].
  - apply Hext in HQ; [done|by left].
Qed.

Lemma find_nil (db : database) c q :
  (∀ k d, coll db c !! k = Some d → ¬ matches q d) → find db c q = [].
Proof.
  intros Hnone. unfold find.
  destruct (filter _ _) as [|[k d] l] eqn:Heq; [done|]. exfalso.
  assert (Hin : (k, d) ∈ (k, d) :: l) by apply list_elem_of_here.
  rewrite <- Heq in Hin. apply list_elem_of_filter in Hin as [Hm Hin].
  apply elem_of_map_to_list in Hin. by eapply Hnone.
Qed.

(** What [performance] answers for a well-formed [employee_id]. *)
Lemma performance_valid now employee_id (db : database) :
  ObjectId_is_valid employee_id = true →
  let q : gmap string cond := {[ "employee_id" := Equals employee_id ]} in
  ∃ revenue avg,
    performance now employee_id db
    = (Ok 200 {| total_quotations := count_documents db "quotation" q;
                 last30_quotations :=
                   count_documents db "quotation"
                     (<["created_at" := Gte (now - days30)]> q);
                 total_revenue := revenue;
                 avg_quote_value := avg |}, db).
Proof.
  intros Hid q. unfold performance. rewrite Hid. cbn [negb]. fold q.
  destruct (foldl _ _ (aggregate db "quotation" q)) as [revenue avg].
  by exists revenue, avg.
Qed.

(** C9. For a well-formed [employee_id], whatever the store holds, the
    summary is returned with [last30_quotations] at most
    [total_quotations]. *)
Theorem last30_at_most_total now employee_id (db : database) :
  ObjectId_is_valid employee_id = true →
  ∃ r,
    performance now employee_id db = (Ok 200 r, db)
    ∧ (last30_quotations r ≤ total_quotations r)%nat.
Proof.
  intros Hid.
  destruct (performance_valid now employee_id db Hid) as (revenue & avg & ->).
  eexists. split; [done|]. cbn [last30_quotations total_quotations].
  unfold count_documents, find.
  erewrite (list_filter_iff (λ r : row, matches (<[_ := _]> _) r.2)
              (λ r : row, holds (Gte (now - days30)) (r.2 !! "created_at")
                          ∧ matches {[ "employee_id" := Equals employee_id ]}
                                    r.2)).
  - rewrite <- list_filter_filter. apply length_filter.
  - intros [k d]. cbn [snd]. by apply matches_insert.
Qed.

(** C6. For a well-formed [employee_id] that no quotation matches (no
    quotation has it as its [employee_id], nor in an array under
    [employee_id], which the store's equality matches too), the summary is
    returned with the two counts 0 and with revenue and average the number
    0: no group comes out of the aggregation, so no average is taken. *)
Theorem performance_of_no_quotations now employee_id (db : database) :
  ObjectId_is_valid employee_id = true →
  (∀ k d, coll db "quotation" !! k = Some d →
          ¬ carries "employee_id" employee_id d) →
  aggregate db "quotation" {[ "employee_id" := Equals employee_id ]} = []
  ∧ performance now employee_id db
    = (Ok 200 {| total_quotations := 0;
                 last30_quotations := 0;
                 total_revenue := JNum (num_of_Z 0);
                 avg_quote_value := JNum (num_of_Z 0) |}, db).
Proof.
  intros Hid Hnone.
  assert (Hfind : find db "quotation"
                    {[ "employee_id" := Equals employee_id ]} = []).
  { apply find_nil. intros k d Hd Hm%matches_singleton. by eapply Hnone. }
  assert (Hfind30 : ∀ t, find db "quotation"
                    (<["created_at" := Gte t]>
                       {[ "employee_id" := Equals employee_id ]}) = []).
  { intros t. apply find_nil. intros k d Hd Hm.
    apply matches_insert in Hm as [_ Hm%matches_singleton]; [|done].
    by eapply Hnone. }
  assert (Hagg : aggregate db "quotation"
                   {[ "employee_id" := Equals employee_id ]} = []).
  { unfold aggregate. by rewrite Hfind. }
  split; [done|].
  unfold performance, count_documents.
  by rewrite Hid, Hagg, Hfind, Hfind30.
Qed.

(** ** Creation timestamps are never in the future *)

Create HintDb effects.
#[local] Hint Constructors effect : effects.

Lemma insert_with_schema_effect now c data (db : database) :
  effect now db (insert_with_schema now c data db).2.
Proof.
  pose proof (insert_with_schema_eq now c data db) as Heq.
  cbv zeta in Heq. rewrite Heq. apply effect_insert.
Qed.

Lemma create_quotation_effect now quotation (db : database) :
  effect now db (create_quotation now quotation db).2.
Proof.
  destruct (references_ok quotation) eqn:Href.
  - pose proof (create_quotation_valid now quotation db Href) as Heq.
    cbv zeta in Heq. rewrite Heq. apply effect_insert.
  - unfold references_ok in Href. unfold create_quotation.
    destruct (ObjectId_is_valid (Quotation.employee_id quotation));
      [|auto with effects].
    destruct (present_and_invalid (Quotation.house_category_id quotation));
      [auto with effects|].
    destruct (present_and_invalid (Quotation.subcategory_id quotation));
      [auto with effects|done].
Qed.

Lemma update_by_id_effect now c _id payload (db : database) :
  effect now db (update_by_id now c _id payload db).2.
Proof.
  destruct (ObjectId_is_valid _id) eqn:Hid;
    [|rewrite update_by_id_invalid by done; auto with effects].
  destruct (coll db c !! ObjectId_new _id) as [d|] eqn:Hd;
    [|rewrite update_by_id_absent by done; auto with effects].
  destruct (apply_set (with_updated_at now payload) d) as [d'|] eqn:Hset.
  - rewrite (update_by_id_applied _ _ _ _ _ d d') by done.
    by eapply effect_update.
  - rewrite (update_by_id_refused _ _ _ _ _ d) by done. auto with effects.
Qed.

Lemma delete_by_id_effect c _id now (db : database) :
  effect now db (delete_by_id c _id db).2.
Proof.
  unfold delete_by_id, delete_one.
  destruct (ObjectId_is_valid _id); [|auto with effects].
  destruct (coll db c !! ObjectId_new _id); cbn; auto with effects.
Qed.

#[local] Hint Resolve insert_with_schema_effect create_quotation_effect
  update_by_id_effect delete_by_id_effect : effects.

Lemma handle_effect now r (db : database) : effect now db (handle now r db).
Proof.
  destruct r; cbn [handle].
  - apply insert_with_schema_effect.
  - apply insert_with_schema_effect.
  - unfold create_subcategory. destruct (negb _); auto with effects.
  - unfold create_package.
    destruct (present_and_invalid (Package.category_id pkg));
      [auto with effects|].
    destruct (present_and_invalid (Package.subcategory_id pkg));
      auto with effects.
  - auto with effects.
  - auto with effects.
  - auto with effects.
Qed.

Lemma created_at_stamped now data : created_at (stamped now data) = Some now.
Proof.
  unfold created_at, stamped.
  by rewrite lookup_insert_ne, lookup_insert_eq.
Qed.

(** A payload is JSON: it cannot put a timestamp under [created_at]. *)
Lemma created_at_updated now payload (d d' : document) τ :
  apply_set (with_updated_at now payload) d = Some d' →
  created_at d' = Some τ → created_at d = Some τ.
Proof.
  intros Hset. unfold created_at.
  destruct (d' !! "created_at") as [[j|τ']|] eqn:Hd'; try done.
  intros [= ->].
  eapply apply_set_timestamps in Hd'; [|done..]. by rewrite Hd'.
Qed.

(** Which entry of the written database a lookup hits: the collection
    written or another one, the key written or another one. *)
Ltac written_or_not c c' k k' H :=
  destruct (decide (c = c')) as [<-|?];
    [rewrite coll_insert in H|rewrite coll_insert_ne in H by done];
    [destruct (decide (k = k')) as [<-|?];
       [rewrite ?lookup_insert_eq in H
       |rewrite ?lookup_insert_ne in H by done]|].

Lemma effect_stamps t now (db db' : database) :
  stamps_not_after t db → t ≤ now → effect now db db' →
  stamps_not_after now db'.
Proof.
  intros Hinv Hle Heff c' k' d' τ Hd' Hτ.
  assert (Hold : ∀ d, coll db c' !! k' = Some d → created_at d = Some τ →
                      τ ≤ now).
  { intros d Hd Hc. pose proof (Hinv _ _ _ _ Hd Hc). lia. }
  destruct Heff as [|c k data|c k payload d d0 Hd Hset|c k].
  - by eapply Hold.
  - written_or_not c c' k k' Hd'; try by eapply Hold.
    injection Hd' as <-. rewrite created_at_stamped in Hτ.
    injection Hτ as <-. lia.
  - written_or_not c c' k k' Hd'; try by eapply Hold.
    injection Hd' as <-. eapply created_at_updated in Hτ; [|done].
    by eapply Hold.
  - written_or_not c c' k k' Hd'; try by eapply Hold.
    + by rewrite lookup_delete_eq in Hd'.
    + rewrite lookup_delete_ne in Hd' by done. by eapply Hold.
Qed.

Lemma reachable_stamps t (db : database) :
  reachable t db → stamps_not_after t db.
Proof.
  induction 1 as [t|t db t' r _ IH Hle].
  - intros c k d τ Hd. by rewrite coll_empty, lookup_empty in Hd.
  - eapply effect_stamps; [done..|apply handle_effect].
Qed.

(** C4, as the code has it.  For a well-formed [employee_id] the
    summary's [last30_quotations] is the number of the employee's
    quotations whose creation timestamp is not before [now - 30 days],
    [now] being the time of the evaluation: the window has no upper end.
    On a database that the API built, with a clock that does not run
    backwards, no creation timestamp is after [now], and the number is
    that of the window [[now - 30 days, now]]. *)
Theorem last30_counts_since_window_start now employee_id (db : database) :
  ObjectId_is_valid employee_id = true →
  ∃ r,
    performance now employee_id db = (Ok 200 r, db)
    ∧ last30_quotations r
      = length (filter (λ r : row, since_last30 now employee_id r.2)
                       (map_to_list (coll db "quotation")))
    ∧ (∀ t, reachable t db → t ≤ now →
         last30_quotations r
         = length (filter (λ r : row, in_last30 now employee_id r.2)
                          (map_to_list (coll db "quotation")))).
Proof.
  intros Hid.
  destruct (performance_valid now employee_id db Hid) as (revenue & avg & ->).
  eexists. split; [done|]. cbn [last30_quotations].
  unfold count_documents, find. split.
  - f_equal. apply list_filter_iff. intros [k d]. cbn [snd].
    rewrite matches_insert, matches_singleton, holds_Gte by done.
    unfold since_last30. tauto.
  - intros t Hreach Hle. f_equal.
    apply filter_ext_in. intros [k d] Hin%elem_of_map_to_list. cbn [snd].
    rewrite matches_insert, matches_singleton, holds_Gte by done.
    unfold in_last30.
    destruct (created_at d) as [τ|] eqn:Hτ; [|tauto].
    pose proof (reachable_stamps t db Hreach _ _ _ _ Hin Hτ) as Hpast.
    split.
    + intros [Hge Hemp]. split; [done|lia].
    + intros [Hemp [Hge _]]. by split.
Qed.

End Api.

(** * A concrete store

    A [$set] that reads a key as a dotted path: it walks embedded
    documents by field name and arrays by index, makes the embedded
    documents that are missing on the way, and refuses the update when a
    path has an empty or dollar-prefixed part, goes through a value that
    has no fields, writes to [_id], or when one path of the set runs
    through another. *)

Section PathStore.
Context `{Numbers}.

Fixpoint path_of (key : string) : list string :=
  match key with
  | EmptyString => [EmptyString]
  | String c key' =>
      if Ascii.eqb c "." then EmptyString :: path_of key'
      else match path_of key' with
           | [] => [String c EmptyString]
           | p :: ps => String c p :: ps
           end
  end.

Definition valid_part (part : string) : bool :=
  negb (String.eqb part "") && negb (starts_with_dollar part)
  && negb (has_char "000" part).

Fixpoint digits_value (s : string) (acc : nat) : option nat :=
  match s with
  | EmptyString => Some acc
  | String c s' =>
      let n := nat_of_ascii c in
      if ((48 <=? n) && (n <=? 57))%nat
      then digits_value s' (10 * acc + (n - 48))
      else None
  end.

(** The index that a part of a path stands for in an array: a decimal
    numeral without a leading zero. *)
Definition index_of (part : string) : option nat :=
  match part with
  | EmptyString => None
  | String "0" (String _ _) => None
  | _ => digits_value part 0
  end.

(** The embedded documents made for the parts of a path that are missing. *)
Definition nest (path : list string) (v : json) : json :=
  foldr (λ part j, JObj [(part, j)]) v path.

Fixpoint update_assoc (part : string) (f : json → option json) (new : json)
    (o : list (string * json)) : option (list (string * json)) :=
  match o with
  | [] => Some [(part, new)]
  | (part', x) :: o' =>
      if String.eqb part' part then (λ x', (part', x') :: o') <$> f x
      else (λ o'', (part', x) :: o'') <$> update_assoc part f new o'
  end.

Fixpoint update_index (i : nat) (f : json → option json) (new : json)
    (l : list json) : option (list json) :=
  match l, i with
  | [], O => Some [new]
  | [], S i' => (λ l', JNull :: l') <$> update_index i' f new []
  | x :: l', O => (λ x', x' :: l') <$> f x
  | x :: l', S i' => (λ l'', x :: l'') <$> update_index i' f new l'
  end.

(** [v] written at [path] inside [old] *)
Fixpoint set_in (path : list string) (old : json) (v : json) : option json :=
  match path with
  | [] => Some v
  | part :: path' =>
      match old with
      | JObj o =>
          JObj <$> update_assoc part (λ x, set_in path' x v) (nest path' v) o
      | JArr l =>
          i ← index_of part;
          JArr <$> update_index i (λ x, set_in path' x v) (nest path' v) l
      | _ => None
      end
  end.

Definition apply_one (key : string) (v : value) (d : gmap string value)
    : option (gmap string value) :=
  match path_of key with
  | [] => None
  | r :: rest =>
      if forallb valid_part (r :: rest) && negb (String.eqb r "_id") then
        match rest with
        | [] => Some (<[r := v]> d)
        | _ =>
            match v with
            | Datetime _ => None
            | J j =>
                match d !! r with
                | None => Some (<[r := J (nest rest j)]> d)
                | Some (J old) => (λ j', <[r := J j']> d) <$> set_in rest old j
                | Some (Datetime _) => None
                end
            end
        end
      else None
  end.

Fixpoint is_prefix (p q : list string) : bool :=
  match p, q with
  | [], _ => true
  | _ :: _, [] => false
  | a :: p', b :: q' => String.eqb a b && is_prefix p' q'
  end.

Definition apart (key key' : string) : bool :=
  negb (is_prefix (path_of key) (path_of key'))
  && negb (is_prefix (path_of key') (path_of key)).

Fixpoint no_conflicts (l : list (string * value)) : bool :=
  match l with
  | [] => true
  | (key, _) :: l' =>
      forallb (λ e : string * value, apart key e.1) l' && no_conflicts l'
  end.

Definition apply_all (l : list (string * value)) (d : gmap string value)
    : option (gmap string value) :=
  foldr (λ e acc, acc ≫= apply_one e.1 e.2) (Some d) l.

Definition path_apply_set (set d : gmap string value)
    : option (gmap string value) :=
  if no_conflicts (map_to_list set) then apply_all (map_to_list set) d
  else None.

End PathStore.

Section PathStoreLaws.
Context `{Numbers}.

Lemma path_of_root key : ∃ rest, path_of key = root key :: rest.
Proof.
  induction key as [|c key [rest IH]]; [by exists []|]. cbn.
  destruct (Ascii.eqb c "."); [by eexists|]. rewrite IH. by eexists.
Qed.

Lemma path_of_no_dot key : has_char "." key = false → path_of key = [key].
Proof.
  induction key as [|c key IH]; [done|]. cbn.
  destruct (Ascii.eqb c "."); [done|]. cbn. intros Hk. by rewrite IH.
Qed.

Lemma plain_path key : plain key = true → path_of key = [key].
Proof.
  unfold plain. rewrite !andb_true_iff, !negb_true_iff.
  intros [[[_ Hdot] _] _]. by apply path_of_no_dot.
Qed.

Lemma apply_one_plain key v (d : gmap string value) :
  plain key = true → apply_one key v d = Some (<[key := v]> d).
Proof.
  intros Hplain. unfold apply_one. rewrite (plain_path key Hplain).
  unfold plain in Hplain. rewrite !andb_true_iff in Hplain.
  destruct Hplain as [[[[Hne Hid] _] Hnul] Hdollar].
  cbn [forallb]. unfold valid_part. by rewrite Hne, Hid, Hnul, Hdollar.
Qed.

(** What one key does: only the root of the key is written, no field is
    lost, and a timestamp only comes from a key that is a field name. *)
Lemma apply_one_inv key v (d d' : gmap string value) :
  apply_one key v d = Some d' →
  ∃ x, d' = <[root key := x]> d
       ∧ (∀ τ, x = Datetime τ → v = Datetime τ).
Proof.
  unfold apply_one. destruct (path_of_root key) as [rest ->].
  destruct (forallb valid_part (root key :: rest) && _); [|done].
  destruct rest as [|part rest].
  - intros [= <-]. by exists v.
  - destruct v as [j|τ]; [|done].
    destruct (d !! root key) as [[old|τ]|]; [|done|].
    + destruct (set_in (part :: rest) old j) as [j'|]; [|done].
      intros [= <-]. by exists (J j').
    + intros [= <-]. by eexists (J _).
Qed.

Lemma apply_all_cons e l (d d' : gmap string value) :
  apply_all (e :: l) d = Some d' →
  ∃ d'', apply_all l d = Some d'' ∧ apply_one e.1 e.2 d'' = Some d'.
Proof.
  unfold apply_all. cbn [foldr].
  destruct (foldr _ _ l) as [d''|]; [|done]. cbn. by exists d''.
Qed.

Lemma apply_all_frame l (d d' : gmap string value) G :
  apply_all l d = Some d' →
  (∀ e, e ∈ l → root e.1 ≠ G) → d' !! G = d !! G.
Proof.
  revert d'. induction l as [|e l IH]; intros d' Hall Hroots.
  - by injection Hall as <-.
  - apply apply_all_cons in Hall as (d'' & Hall & Hone).
    apply apply_one_inv in Hone as (x & -> & _).
    rewrite lookup_insert_ne by (apply Hroots; left).
    apply IH; [done|]. intros e' He'. apply Hroots. by right.
Qed.

Lemma apply_all_keeps l (d d' : gmap string value) G :
  apply_all l d = Some d' → is_Some (d !! G) → is_Some (d' !! G).
Proof.
  revert d'. induction l as [|e l IH]; intros d' Hall HG.
  - by injection Hall as <-.
  - apply apply_all_cons in Hall as (d'' & Hall & Hone).
    apply apply_one_inv in Hone as (x & -> & _).
    destruct (decide (root e.1 = G)) as [->|Hne].
    + rewrite lookup_insert_eq. by eexists.
    + rewrite lookup_insert_ne by done. by apply IH.
Qed.

Lemma apply_all_timestamps l (d d' : gmap string value) G τ :
  apply_all l d = Some d' →
  d' !! G = Some (Datetime τ) →
  (∃ e, e ∈ l ∧ root e.1 = G ∧ e.2 = Datetime τ)
  ∨ d !! G = Some (Datetime τ).
Proof.
  revert d'. induction l as [|e l IH]; intros d' Hall HG.
  - injection Hall as <-. by right.
  - apply apply_all_cons in Hall as (d'' & Hall & Hone).
    apply apply_one_inv in Hone as (x & -> & Hx).
    destruct (decide (root e.1 = G)) as [Heq|Hne].
    + rewrite Heq, lookup_insert_eq in HG. injection HG as ->.
      left. exists e. split_and!; [by left|done|by apply Hx].
    + rewrite lookup_insert_ne in HG by done.
      destruct (IH _ Hall HG) as [(e' & He' & Hr & Hv)|Hd]; [|by right].
      left. exists e'. split_and!; [by right|done..].
Qed.

Lemma apply_all_plain l (d : gmap string value) :
  (∀ e, e ∈ l → plain e.1 = true) →
  apply_all l d = Some (list_to_map l ∪ d).
Proof.
  induction l as [|[key v] l IH]; intros Hplain.
  - cbn. by rewrite (left_id ∅ (∪)).
  - unfold apply_all in *. cbn [foldr].
    rewrite IH by (intros e He; apply Hplain; by right). cbn.
    rewrite apply_one_plain by (apply (Hplain (key, v)); left).
    by rewrite insert_union_l.
Qed.

Lemma is_prefix_single key rest : is_prefix [key] (key :: rest) = true.
Proof. cbn. by rewrite String.eqb_refl. Qed.

Lemma apply_all_written l (d d' : gmap string value) key v :
  no_conflicts l = true →
  NoDup (l.*1) →
  apply_all l d = Some d' →
  (key, v) ∈ l → plain key = true →
  d' !! key = Some v.
Proof.
  revert d'. induction l as [|[key1 v1] l IH]; intros d' Hok Hnd Hall Hin Hplain.
  - by apply elem_of_nil in Hin.
  - apply apply_all_cons in Hall as (d'' & Hall & Hone). cbn in Hone.
    cbn in Hok. apply andb_prop in Hok as [Hhead Hok].
    apply NoDup_cons in Hnd as [Hfresh Hnd].
    apply elem_of_cons in Hin as [[= <- <-]|Hin].
    + rewrite apply_one_plain in Hone by done. injection Hone as <-.
      apply lookup_insert_eq.
    + apply apply_one_inv in Hone as (x & -> & _).
      rewrite lookup_insert_ne; [by eapply IH|].
      intros Hroot.
      rewrite forallb_forall in Hhead.
      assert (Hap : apart key1 key = true).
      { apply (Hhead (key, v)). by apply list_elem_of_In. }
      unfold apart in Hap. apply andb_prop in Hap as [_ Hap].
      rewrite (plain_path key Hplain) in Hap.
      destruct (path_of_root key1) as [rest Hpath].
      rewrite Hpath, Hroot, is_prefix_single in Hap. done.
Qed.

Lemma no_conflicts_plain (l : list (string * value)) :
  NoDup (l.*1) → (∀ e, e ∈ l → plain e.1 = true) → no_conflicts l = true.
Proof.
  induction l as [|[key v] l IH]; intros Hnd Hplain; [done|]. cbn.
  apply NoDup_cons in Hnd as [Hfresh Hnd].
  rewrite IH by (done || intros e He; apply Hplain; by right).
  rewrite andb_true_r. apply forallb_forall. intros [key' v'] Hin%list_elem_of_In.
  unfold apart. cbn [fst].
  rewrite (plain_path key) by (apply (Hplain (key, v)); left).
  rewrite (plain_path key') by (apply (Hplain (key', v')); by right).
  cbn. rewrite !andb_true_r.
  assert (Hne : key ≠ key').
  { intros ->. apply Hfresh. apply list_elem_of_fmap. by exists (key', v'). }
  apply andb_true_intro. split; apply negb_true_iff, String.eqb_neq; congruence.
Qed.

(** The entries of the set that [update_by_id] builds. *)
Lemma with_updated_at_entry now payload key v :
  (key, v) ∈ map_to_list (with_updated_at now payload) →
  (key = "updated_at" ∧ v = Datetime now)
  ∨ (key ≠ "updated_at" ∧ ∃ j, payload !! key = Some j ∧ v = J j).
Proof.
  rewrite elem_of_map_to_list. unfold with_updated_at.
  destruct (decide (key = "updated_at")) as [->|Hne].
  - rewrite lookup_insert_eq. intros [= <-]. by left.
  - rewrite lookup_insert_ne, lookup_fmap by done.
    destruct (payload !! key) as [j|]; [|done]. intros [= <-].
    right. split; [done|]. by exists j.
Qed.

(** This store refuses no update by plain field names. *)
Lemma path_apply_set_plain now (payload : gmap string json)
    (d : gmap string value) :
  (∀ key, is_Some (payload !! key) → plain key = true) →
  path_apply_set (with_updated_at now payload) d
  = Some (with_updated_at now payload ∪ d).
Proof.
  intros Hplain. unfold path_apply_set.
  assert (Hall : ∀ e, e ∈ map_to_list (with_updated_at now payload) →
                      plain e.1 = true).
  { intros [key v] [[-> _]|[_ (j & Hj & _)]]%with_updated_at_entry; [done|].
    apply Hplain. by eexists. }
  rewrite no_conflicts_plain by (done || apply NoDup_fst_map_to_list).
  rewrite apply_all_plain by done. by rewrite list_to_map_to_list.
Qed.

#[export] Program Instance path_store : Store := {|
  apply_set := path_apply_set;
|}.
Next Obligation.
  intros now payload d d' G. unfold path_apply_set.
  destruct (no_conflicts _); [|done]. intros Hall HG Hroots.
  eapply apply_all_frame; [done|].
  intros [key v] [[-> _]|[_ (j & Hj & _)]]%with_updated_at_entry; [done|].
  apply Hroots. by eexists.
Qed.
Next Obligation.
  intros now payload d d'. unfold path_apply_set.
  destruct (no_conflicts _) eqn:Hok; [|done]. intros Hall. split.
  - eapply apply_all_written; [done|apply NoDup_fst_map_to_list|done| |done].
    apply elem_of_map_to_list. unfold with_updated_at. apply lookup_insert_eq.
  - intros key v Hplain Hne Hv.
    eapply apply_all_written; [done|apply NoDup_fst_map_to_list|done| |done].
    apply elem_of_map_to_list. unfold with_updated_at.
    by rewrite lookup_insert_ne, lookup_fmap, Hv.
Qed.
Next Obligation.
  intros now payload d d' G τ. unfold path_apply_set.
  destruct (no_conflicts _); [|done]. intros Hall HG Hd'.
  destruct (apply_all_timestamps _ _ _ _ _ Hall Hd')
    as [([key v] & He & Hroot & Hv)|Hd]; [|done].
  cbn in Hroot, Hv.
  apply with_updated_at_entry in He as [[-> _]|[_ (j & _ & ->)]]; [|done].
  by destruct HG.
Qed.
Next Obligation.
  intros now payload d d' G. unfold path_apply_set.
  destruct (no_conflicts _); [|done]. apply apply_all_keeps.
Qed.

End PathStoreLaws.

(** * The model at work

    The two examples of the specification, and the theorems above applied
    to concrete requests, on the concrete platform: identifiers are numbers
    written with 24 hexadecimal digits, amounts are integers. *)

Definition an_employee : string := "0123456789abcdef01234567".

Definition item (price : Z) : QuotationItem.t :=
  {| QuotationItem.package_id := "aaaaaaaaaaaaaaaaaaaaaaaa";
     QuotationItem.name := None;
     QuotationItem.quantity := 1;
     QuotationItem.unit_price := price;
     QuotationItem.total := price |}.

Definition a_quotation (prices : list Z) (subtotal discount tax total : Z)
    : Quotation.t :=
  {| Quotation.employee_id := an_employee;
     Quotation.client_name := "Client";
     Quotation.client_contact := None;
     Quotation.house_category_id := None;
     Quotation.subcategory_id := None;
     Quotation.items := item <$> prices;
     Quotation.subtotal := subtotal;
     Quotation.discount := discount;
     Quotation.tax := tax;
     Quotation.total := total;
     Quotation.status := draft;
     Quotation.notes := None |}.

(** items=[{total:100},{total:50}], subtotal=0, discount=10, tax=5 *)
Definition raw_items : Quotation.t := a_quotation [100; 50] 0 10 5 0.

(** items=[{total:100}], subtotal=200, discount=0, tax=0 *)
Definition precomputed : Quotation.t := a_quotation [100] 200 0 0 200.

Definition first_id : string := "000000000000000000000000".

(** The database after [raw_items] was created at time 1000 in an empty
    store; the quotation got the first identifier. *)
Definition one_quotation : gmap string (gmap ObjectId (gmap string value)) :=
  handle 1000 (CreateQuotation raw_items) ∅.

Example spec_example_derived :
  ∃ body db',
    create_quotation 1000 raw_items ∅ = (Ok 201 (Some body), db')
    ∧ body !! "subtotal" = Some (JNum (num_of_Z 150))
    ∧ body !! "total" = Some (JNum (num_of_Z 145))
    ∧ body !! "_id" = Some (JStr first_id).
Proof. by eexists _, _. Qed.

Example spec_example_unchanged :
  ∃ body db',
    create_quotation 1000 precomputed ∅ = (Ok 201 (Some body), db')
    ∧ body !! "subtotal" = Some (JNum (num_of_Z 200))
    ∧ body !! "total" = Some (JNum (num_of_Z 200)).
Proof. by eexists _, _. Qed.

Lemma create_quotation_derives_totals_witness :
  references_ok raw_items = true
  ∧ num_eq_zero (Quotation.subtotal raw_items) = true
  ∧ num_eq_zero (items_sum raw_items) = false
  ∧ ∃ k d db' body,
      create_quotation 1000 raw_items ∅ = (Ok 201 (Some body), db')
      ∧ coll ∅ "quotation" !! k = None
      ∧ coll db' "quotation" !! k = Some d
      ∧ body = to_str_id (k, d)
      ∧ d !! "subtotal" = Some (J (JNum (num_of_Z 150)))
      ∧ d !! "total" = Some (J (JNum (num_of_Z 145)))
      ∧ body !! "subtotal" = Some (JNum (num_of_Z 150))
      ∧ body !! "total" = Some (JNum (num_of_Z 145)).
Proof.
  split_and!; [reflexivity..|].
  apply (create_quotation_derives_totals 1000 raw_items ∅); reflexivity.
Defined.

Lemma create_quotation_keeps_supplied_witness :
  references_ok precomputed = true
  ∧ num_eq_zero (Quotation.subtotal precomputed) = false
  ∧ ∃ k d db' body,
      create_quotation 1000 precomputed ∅ = (Ok 201 (Some body), db')
      ∧ coll ∅ "quotation" !! k = None
      ∧ coll db' "quotation" !! k = Some d
      ∧ body = to_str_id (k, d)
      ∧ d = stamped 1000 (dump_Quotation precomputed)
      ∧ d !! "subtotal" = Some (J (JNum (num_of_Z 200)))
      ∧ d !! "total" = Some (J (JNum (num_of_Z 200)))
      ∧ body !! "subtotal" = Some (JNum (num_of_Z 200))
      ∧ body !! "total" = Some (JNum (num_of_Z 200)).
Proof.
  split_and!; [reflexivity..|].
  apply (create_quotation_keeps_supplied 1000 precomputed ∅);
    [reflexivity|left; reflexivity].
Defined.

Lemma one_quotation_reachable : reachable 1000 one_quotation.
Proof. apply (reachable_step 0 ∅ 1000); [apply reachable_init|lia]. Qed.

Lemma one_quotation_rows :
  coll one_quotation "quotation"
  = {[ ObjectId_new first_id := stamped 1000 (quotation_payload raw_items) ]}.
Proof. reflexivity. Qed.

(** An identifier that is not well formed, as a filter of the quotation
    list: the answer is 200, not 400. *)
Lemma invalid_filter_id_is_accepted :
  ObjectId_is_valid "not-an-id" = false
  ∧ handle_with_id 0 (FilterQuotationsEmployee None) "not-an-id" ∅
    = (200%nat, ∅)
  ∧ ¬ invalid_id_rejected_everywhere.
Proof.
  split_and!; [reflexivity..|].
  intros Hall.
  specialize (Hall "not-an-id" eq_refl 0 (FilterQuotationsEmployee None) ∅).
  apply (f_equal fst) in Hall. discriminate Hall.
Qed.

Lemma invalid_id_rejected_where_checked_witness :
  ObjectId_is_valid "not-an-id" = false
  ∧ (checked (PathDelete "quotation") "not-an-id" = true →
     handle_with_id 2000 (PathDelete "quotation") "not-an-id" one_quotation
     = (400%nat, one_quotation))
  ∧ (is_filter (PathDelete "quotation") = true →
     handle_with_id 2000 (PathDelete "quotation") "not-an-id" one_quotation
     = (200%nat, one_quotation)).
Proof.
  split; [reflexivity|].
  apply (invalid_id_rejected_where_checked "not-an-id" 2000
           (PathDelete "quotation") one_quotation).
  reflexivity.
Defined.

Lemma last30_counts_since_window_start_witness :
  ObjectId_is_valid an_employee = true
  ∧ ∃ r,
      performance 2000 an_employee one_quotation = (Ok 200 r, one_quotation)
      ∧ last30_quotations r
        = length (filter (λ r : ObjectId * gmap string value,
                            since_last30 2000 an_employee r.2)
                         (map_to_list (coll one_quotation "quotation")))
      ∧ (∀ t, reachable t one_quotation → t ≤ 2000 →
           last30_quotations r
           = length (filter (λ r : ObjectId * gmap string value,
                               in_last30 2000 an_employee r.2)
                            (map_to_list (coll one_quotation "quotation")))).
Proof.
  split; [reflexivity|].
  apply (last30_counts_since_window_start 2000 an_employee one_quotation).
  reflexivity.
Defined.

(** The database after [raw_items] was created at time 5000. *)
Definition later_quotation : gmap string (gmap ObjectId (gmap string value)) :=
  handle 5000 (CreateQuotation raw_items) ∅.

(** A quotation created at 5000 and a summary asked for at 1000, the clock
    having been set back: the quotation is counted, although its creation
    timestamp is not in the window that ends at 1000. *)
Lemma later_quotation_is_counted :
  reachable 5000 later_quotation
  ∧ (∃ r,
       performance 1000 an_employee later_quotation
       = (Ok 200 r, later_quotation)
       ∧ last30_quotations r = 1%nat)
  ∧ length (filter (λ r : ObjectId * gmap string value,
                      in_last30 1000 an_employee r.2)
                   (map_to_list (coll later_quotation "quotation"))) = 0%nat
  ∧ ¬ last30_is_window_count.
Proof.
  split_and!.
  - apply (reachable_step 0 ∅ 5000); [apply reachable_init|lia].
  - by eexists.
  - reflexivity.
  - intros Hclaim.
    pose proof (Hclaim 1000 an_employee later_quotation _ eq_refl) as Heq.
    vm_compute in Heq. discriminate Heq.
Qed.



(** The quotation of [one_quotation] after its status was set, by an
    update, to an array of two strings. *)
Definition array_status : gmap string (gmap ObjectId (gmap string value)) :=
  handle 2000
    (Update "quotation" first_id
       {[ "status" := JArr [JStr "approved"; JStr "draft"] ]})
    one_quotation.

(** A quotation whose status is the array [["approved", "draft"]] is
    listed under the filter status = "approved". *)
Lemma array_status_is_listed :
  reachable 2000 array_status
  ∧ (∃ listed b,
       (list_quotations None (Some "approved") array_status).1 = Ok 200 listed
       ∧ b ∈ listed
       ∧ b !! "status" = Some (JArr [JStr "approved"; JStr "draft"]))
  ∧ ¬ lists_by_exact_equality.
Proof.
  split_and!.
  - apply (reachable_step 1000 one_quotation 2000);
      [apply one_quotation_reachable|lia].
  - eexists _, _. split_and!; [reflexivity|apply list_elem_of_here|reflexivity].
  - intros Hclaim.
    destruct (Hclaim None (Some "approved") array_status _ _ eq_refl
                (list_elem_of_here _ _)) as [_ Hstatus].
    specialize (Hstatus "approved" eq_refl ltac:(discriminate)).
    vm_compute in Hstatus. discriminate Hstatus.
Qed.

Lemma performance_of_no_quotations_witness :
  ObjectId_is_valid "aaaaaaaaaaaaaaaaaaaaaaaa" = true
  ∧ (∀ k d, coll one_quotation "quotation" !! k = Some d →
            ¬ carries "employee_id" "aaaaaaaaaaaaaaaaaaaaaaaa" d)
  ∧ aggregate one_quotation "quotation"
      {[ "employee_id" := Equals "aaaaaaaaaaaaaaaaaaaaaaaa" ]} = []
  ∧ performance 2000 "aaaaaaaaaaaaaaaaaaaaaaaa" one_quotation
    = (Ok 200 {| total_quotations := 0;
                 last30_quotations := 0;
                 total_revenue := JNum (num_of_Z 0);
                 avg_quote_value := JNum (num_of_Z 0) |}, one_quotation).
Proof.
  assert (Hnone : ∀ k d, coll one_quotation "quotation" !! k = Some d →
                    ¬ carries "employee_id" "aaaaaaaaaaaaaaaaaaaaaaaa" d).
  { intros k d. rewrite one_quotation_rows.
    intros [_ <-]%lookup_singleton_Some.
    by intros [[=]|(l & [=] & _)]. }
  split_and!; [reflexivity|exact Hnone|..];
    apply (performance_of_no_quotations 2000 "aaaaaaaaaaaaaaaaaaaaaaaa"
             one_quotation eq_refl Hnone).
Defined.

Lemma delete_then_delete_again_witness :
  ObjectId_is_valid first_id = true
  ∧ is_Some (coll one_quotation "quotation" !! ObjectId_new first_id)
  ∧ ∃ db',
      delete_by_id "quotation" first_id one_quotation
      = (Ok 200 {[ "deleted" := JBool true ]}, db')
      ∧ coll db' "quotation" !! ObjectId_new first_id = None
      ∧ delete_by_id "quotation" first_id db'
        = (HTTPException 404 "Not found", db').
Proof.
  assert (Hthere : is_Some (coll one_quotation "quotation"
                              !! ObjectId_new first_id)) by (by eexists).
  split_and!; [reflexivity|exact Hthere|].
  apply (delete_then_delete_again "quotation" first_id one_quotation eq_refl
           Hthere).
Defined.

Lemma last30_at_most_total_witness :
  ObjectId_is_valid an_employee = true
  ∧ ∃ r,
      performance 2000 an_employee one_quotation = (Ok 200 r, one_quotation)
      ∧ (last30_quotations r ≤ total_quotations r)%nat.
Proof.
  split; [reflexivity|].
  apply (last30_at_most_total 2000 an_employee one_quotation). reflexivity.
Defined.

(** ** With floating-point amounts

    A quotation sent with subtotal [-0.0], which equals 0, and two items of
    0.1 and 0.2: the stored subtotal is the floating-point sum. *)
Section Floats.
#[local] Existing Instance float_numbers.

Definition float_item (price : float) : QuotationItem.t :=
  {| QuotationItem.package_id := "aaaaaaaaaaaaaaaaaaaaaaaa";
     QuotationItem.name := None;
     QuotationItem.quantity := 1;
     QuotationItem.unit_price := price;
     QuotationItem.total := price |}.

Definition float_quotation : Quotation.t :=
  {| Quotation.employee_id := an_employee;
     Quotation.client_name := "Client";
     Quotation.client_contact := None;
     Quotation.house_category_id := None;
     Quotation.subcategory_id := None;
     Quotation.items := [float_item 0.1; float_item 0.2];
     Quotation.subtotal := (-0)%float;
     Quotation.discount := 0.05%float;
     Quotation.tax := 0%float;
     Quotation.total := 0%float;
     Quotation.status := draft;
     Quotation.notes := None |}.

Example float_example :
  ∃ body db',
    create_quotation 1000 float_quotation ∅ = (Ok 201 (Some body), db')
    ∧ body !! "subtotal" = Some (JNum 0.30000000000000004%float)
    ∧ body !! "total" = Some (JNum 0.25000000000000006%float).
Proof. by eexists _, _. Qed.

End Floats.

(** * Further properties of the handlers

    How the handlers fail, what they leave alone, and how they compose. *)

Section Further.
Context `{Bson, Numbers, Clock}.
Context `{!Store}.

Abbreviation document := (gmap string value).
Abbreviation row := (ObjectId * gmap string value)%type.
Abbreviation database := (gmap string (gmap ObjectId (gmap string value))).

(** ** More of [main.py] *)

(** [PyObjectId.validate(v)]: [v] is an [ObjectId] already, or a string;
    [None] stands for the [ValueError]. *)
Definition PyObjectId_validate (v : ObjectId + string) : option ObjectId :=
  match v with
  | inl oid => Some oid
  | inr s => if negb (ObjectId_is_valid s) then None else Some (ObjectId_new s)
  end.

(** What a handler raised, if it did not return: the status and the detail
    of the exception. *)
Definition raised {A} (r : response A) : option (nat * string) :=
  match r with
  | HTTPException st detail => Some (st, detail)
  | Ok _ _ => None
  end.

(** The exception that leaves the handler of a request that writes, if one
    does.  This is the handler function alone: what the framework makes of
    a value that the handler returned is not part of it. *)
Definition handler_raises (now : Z) (r : request) (db : database)
    : option (nat * string) :=
  match r with
  | CreateUser user => raised (create_user now user db).1
  | CreateCategory category => raised (create_category now category db).1
  | CreateSubcategory sub => raised (create_subcategory now sub db).1
  | CreatePackage pkg => raised (create_package now pkg db).1
  | CreateQuotation quotation => raised (create_quotation now quotation db).1
  | Update c _id payload => raised (update_by_id now c _id payload db).1
  | Delete c _id => raised (delete_by_id c _id db).1
  end.

(** All keys of an update payload are plain field names. *)
Definition plain_keys (payload : gmap string json) : bool :=
  forallb plain (map_to_list payload).*1.

(** ** What an answer tells about the request *)

Lemma create_quotation_Ok_inv now quotation (db : database) st body db' :
  create_quotation now quotation db = (Ok st body, db') →
  references_ok quotation = true.
Proof.
  intros Hcreate. destruct (references_ok quotation) eqn:Href; [done|].
  exfalso. unfold references_ok in Href. unfold create_quotation in Hcreate.
  destruct (ObjectId_is_valid (Quotation.employee_id quotation));
    [|discriminate].
  destruct (present_and_invalid (Quotation.house_category_id quotation));
    [discriminate|].
  destruct (present_and_invalid (Quotation.subcategory_id quotation));
    [discriminate|done].
Qed.

Lemma update_by_id_Ok_inv now c _id payload (db : database) st body db' :
  update_by_id now c _id payload db = (Ok st body, db') →
  ∃ d d',
    ObjectId_is_valid _id = true
    ∧ coll db c !! ObjectId_new _id = Some d
    ∧ apply_set (with_updated_at now payload) d = Some d'
    ∧ st = 200%nat
    ∧ body = to_str_id (ObjectId_new _id, d')
    ∧ db' = <[c := <[ObjectId_new _id := d']> (coll db c)]> db.
Proof.
  intros Hup.
  destruct (ObjectId_is_valid _id) eqn:Hid;
    [|by rewrite update_by_id_invalid in Hup].
  destruct (coll db c !! ObjectId_new _id) as [d|] eqn:Hd;
    [|by rewrite update_by_id_absent in Hup].
  destruct (apply_set (with_updated_at now payload) d) as [d'|] eqn:Hset;
    [|by erewrite update_by_id_refused in Hup].
  rewrite (update_by_id_applied _ _ _ _ _ d d') in Hup by done.
  injection Hup as <- <- <-. by exists d, d'.
Qed.

Lemma plain_keys_spec (payload : gmap string json) :
  plain_keys payload = true ↔
  ∀ key, is_Some (payload !! key) → plain key = true.
Proof.
  unfold plain_keys. rewrite forallb_forall. split.
  - intros Hall key [v Hv]. apply Hall, list_elem_of_In, list_elem_of_fmap.
    exists (key, v). split; [done|]. by apply elem_of_map_to_list.
  - intros Hall key Hin%list_elem_of_In.
    apply list_elem_of_fmap in Hin as ([k v] & -> & Hin%elem_of_map_to_list).
    apply Hall. by exists v.
Qed.

Lemma to_str_id_id (r : row) : to_str_id r !! "_id" = Some (JStr (ObjectId_str r.1)).
Proof. unfold to_str_id. apply lookup_insert_eq. Qed.

(** X1. Reading back what was created: when [create_quotation] answers
    201 with a body, and the [_id] of that body is a well-formed
    identifier, [get_quotation] of that [_id] answers 200 with the same
    body. *)
Theorem create_then_get_quotation now quotation (db : database) body db'
    new_id :
  create_quotation now quotation db = (Ok 201 (Some body), db') →
  body !! "_id" = Some (JStr new_id) →
  ObjectId_is_valid new_id = true →
  get_quotation new_id db' = (Ok 200 body, db').
Proof.
  intros Hcreate Hbody Hid.
  pose proof (create_quotation_Ok_inv _ _ _ _ _ _ Hcreate) as Href.
  pose proof (create_quotation_valid now quotation db Href) as Heq.
  cbv zeta in Heq. rewrite Heq in Hcreate.
  injection Hcreate as <- <-.
  rewrite to_str_id_id in Hbody. injection Hbody as <-.
  unfold get_quotation, find_one. rewrite Hid. cbn [negb fst].
  by rewrite ObjectId_new_str, coll_insert, lookup_insert_eq.
Qed.

(** X2. [get_quotation] never writes; it answers 400 exactly when the id
    is not well formed, 404 exactly when the id is well formed and no
    quotation has it, and 200 with the stored quotation otherwise. *)
Theorem get_quotation_answers quotation_id (db : database) :
  (get_quotation quotation_id db).2 = db
  ∧ (status_of (get_quotation quotation_id db).1 = 400%nat
     ↔ ObjectId_is_valid quotation_id = false)
  ∧ (status_of (get_quotation quotation_id db).1 = 404%nat
     ↔ ObjectId_is_valid quotation_id = true
       ∧ coll db "quotation" !! ObjectId_new quotation_id = None)
  ∧ (∀ body, (get_quotation quotation_id db).1 = Ok 200 body
     ↔ ObjectId_is_valid quotation_id = true
       ∧ ∃ d, coll db "quotation" !! ObjectId_new quotation_id = Some d
              ∧ body = to_str_id (ObjectId_new quotation_id, d)).
Proof.
  unfold get_quotation, find_one.
  destruct (ObjectId_is_valid quotation_id); cbn [negb];
    [destruct (coll db "quotation" !! ObjectId_new quotation_id) as [d|]|];
    cbn; split_and!; try done; try (split; [done|by intros [? ?]]).
  - intros body. split.
    + intros [= <-]. split; [done|]. by exists d.
    + intros [_ (d' & [= <-] & ->)]. done.
  - intros body. split; [done|]. by intros [_ (d' & ? & _)].
Qed.

(** X3. Reading back what was updated: when [update_quotation] answers 200
    with a body, [get_quotation] of the same id answers 200 with the same
    body. *)
Theorem update_then_get_quotation now quotation_id payload (db : database)
    body db' :
  update_quotation now quotation_id payload db = (Ok 200 body, db') →
  get_quotation quotation_id db' = (Ok 200 body, db').
Proof.
  intros Hup. apply update_by_id_Ok_inv in Hup
    as (d & d' & Hid & Hd & Hset & _ & -> & ->).
  unfold get_quotation, find_one. rewrite Hid. cbn [negb].
  by rewrite coll_insert, lookup_insert_eq.
Qed.


Ltac in_list :=
  repeat first [apply list_elem_of_here|apply list_elem_of_further].

Ltac raises_by Hexc :=
  let Hr := fresh "Hr" in
  cbn; intros Hr; eapply Hexc; [exact Hr|in_list].

(** X5. A handler that writes and raises has written nothing: when an
    exception leaves the handler of a create, update or delete request,
    the database is the one before the request, and the status of the
    exception is 400, 404 or, the store having refused the update, 500. *)
Theorem raising_handler_leaves_store now r (db : database) st detail :
  handler_raises now r db = Some (st, detail) →
  handle now r db = db ∧ st ∈ [400; 404; 500]%nat.
Proof.
  assert (Hins : ∀ c data,
    raised (insert_with_schema now c data db).1 = Some (st, detail) →
    (insert_with_schema now c data db).2 = db ∧ st ∈ [400; 404; 500]%nat).
  { intros c data. pose proof (insert_with_schema_eq now c data db) as Heq.
    cbv zeta in Heq. by rewrite Heq. }
  assert (Hexc : ∀ st' detail',
    Some (st', detail') = Some (st, detail) →
    st' ∈ [400; 404; 500]%nat →
    db = db ∧ st ∈ [400; 404; 500]%nat).
  { by intros st' detail' [= <- <-] Hin. }
  destruct r; cbn [handler_raises handle].
  - apply Hins.
  - apply Hins.
  - unfold create_subcategory. destruct (negb _); [|apply Hins].
    raises_by Hexc.
  - unfold create_package.
    destruct (present_and_invalid (Package.category_id pkg));
      [raises_by Hexc|].
    destruct (present_and_invalid (Package.subcategory_id pkg));
      [raises_by Hexc|apply Hins].
  - destruct (references_ok quotation) eqn:Href.
    + pose proof (create_quotation_valid now quotation db Href) as Heq.
      cbv zeta in Heq. by rewrite Heq.
    + unfold references_ok in Href. unfold create_quotation.
      destruct (ObjectId_is_valid (Quotation.employee_id quotation));
        [|raises_by Hexc].
      destruct (present_and_invalid (Quotation.house_category_id quotation));
        [raises_by Hexc|].
      destruct (present_and_invalid (Quotation.subcategory_id quotation));
        [raises_by Hexc|done].
  - destruct (ObjectId_is_valid _id) eqn:Hid;
      [|rewrite update_by_id_invalid by done; raises_by Hexc].
    destruct (coll db c !! ObjectId_new _id) as [d|] eqn:Hd;
      [|rewrite update_by_id_absent by done; raises_by Hexc].
    destruct (apply_set (with_updated_at now payload) d) as [d'|] eqn:Hset.
    + by rewrite (update_by_id_applied _ _ _ _ _ d d') by done.
    + rewrite (update_by_id_refused _ _ _ _ _ d) by done.
      raises_by Hexc.
  - unfold delete_by_id, delete_one.
    destruct (ObjectId_is_valid _id);
      [|raises_by Hexc].
    destruct (coll db c !! ObjectId_new _id); cbn; [done|].
    raises_by Hexc.
Qed.

Lemma update_by_id_Ok_plain now c _id payload (db : database) st body db' :
  plain_keys payload = true →
  update_by_id now c _id payload db = (Ok st body, db') →
  ∃ d,
    coll db c !! ObjectId_new _id = Some d
    ∧ body = to_str_id (ObjectId_new _id, merged now payload d)
    ∧ db' = <[c := <[ObjectId_new _id := merged now payload d]> (coll db c)]>
              db.
Proof.
  rewrite plain_keys_spec. intros Hplain Hup.
  apply update_by_id_Ok_inv in Hup
    as (d & d' & _ & Hd & Hset & _ & -> & ->).
  apply apply_set_merges in Hset as ->; [|done]. by exists d.
Qed.

(** X6. Two updates of a record by plain field names make one: when all
    keys of [p1] and of [p2] are plain field names and the store does
    each of the updates, updating with [p1] at [t1] and then with [p2] at
    [t2] gives the body and leaves the database that the single update
    with [p2] laid over [p1] does at [t2]. *)
Theorem update_twice_is_update_once t1 t2 c _id p1 p2 (db : database)
    body1 db1 body2 db2 body db' :
  plain_keys p1 = true →
  plain_keys p2 = true →
  update_by_id t1 c _id p1 db = (Ok 200 body1, db1) →
  update_by_id t2 c _id p2 db1 = (Ok 200 body2, db2) →
  update_by_id t2 c _id (p2 ∪ p1) db = (Ok 200 body, db') →
  body2 = body ∧ db2 = db'.
Proof.
  intros Hp1 Hp2 Hup1 Hup2 Hup.
  assert (Hboth : plain_keys (p2 ∪ p1) = true).
  { rewrite plain_keys_spec in Hp1. rewrite plain_keys_spec in Hp2.
    apply plain_keys_spec.
    intros key [v [Hv|[_ Hv]]%lookup_union_Some_raw]; eauto. }
  apply update_by_id_Ok_plain in Hup1 as (d & Hd & _ & ->); [|done].
  apply update_by_id_Ok_plain in Hup2 as (d1 & Hd1 & -> & ->); [|done].
  apply update_by_id_Ok_plain in Hup as (d0 & Hd0 & -> & ->); [|done].
  rewrite coll_insert, lookup_insert_eq in Hd1. injection Hd1 as <-.
  rewrite Hd in Hd0. injection Hd0 as <-.
  assert (Hm : merged t2 p2 (merged t1 p1 d) = merged t2 (p2 ∪ p1) d).
  { apply map_eq. intros f. unfold merged, with_updated_at.
    destruct (decide (f = "updated_at")) as [->|Hf].
    - rewrite !(lookup_union_Some_l _ _ _ (Datetime t2));
        [done|apply lookup_insert_eq..].
    - rewrite !lookup_union, !lookup_insert_ne, !lookup_fmap, lookup_union
        by done.
      destruct (p2 !! f), (p1 !! f), (d !! f); done. }
  rewrite Hm, coll_insert. split; [done|].
  by rewrite insert_insert_eq, insert_insert_eq.
Qed.

(** ** Delete *)

Lemma delete_by_id_Ok_inv c _id (db : database) st body db' :
  delete_by_id c _id db = (Ok st body, db') →
  ObjectId_is_valid _id = true
  ∧ is_Some (coll db c !! ObjectId_new _id)
  ∧ st = 200%nat
  ∧ body = {[ "deleted" := JBool true ]}
  ∧ db' = <[c := delete (ObjectId_new _id) (coll db c)]> db.
Proof.
  unfold delete_by_id, delete_one.
  destruct (ObjectId_is_valid _id); [|discriminate]. cbn [negb].
  destruct (coll db c !! ObjectId_new _id) as [d|]; [|discriminate].
  cbn. intros [= <- <- <-]. split_and!; by eauto.
Qed.

Lemma ObjectId_str_inj (a b : ObjectId) : ObjectId_str a = ObjectId_str b → a = b.
Proof.
  intros Heq. by rewrite <- (ObjectId_new_str a), Heq, ObjectId_new_str.
Qed.

(** X7. A delete that answers 200 takes exactly one record away: the
    collection is one record smaller, every other record of it and every
    other collection are as before. *)
Theorem delete_removes_one_record c _id (db : database) body db' :
  delete_by_id c _id db = (Ok 200 body, db') →
  coll db' c !! ObjectId_new _id = None
  ∧ S (size (coll db' c)) = size (coll db c)
  ∧ (∀ k, k ≠ ObjectId_new _id → coll db' c !! k = coll db c !! k)
  ∧ (∀ c', c' ≠ c → coll db' c' = coll db c').
Proof.
  intros Hdel. apply delete_by_id_Ok_inv in Hdel as (_ & Hd & _ & _ & ->).
  rewrite coll_insert. split_and!.
  - apply lookup_delete_eq.
  - rewrite map_size_delete_Some by done.
    destruct Hd as [d Hd].
    assert (size (coll db c) ≠ 0%nat); [|lia].
    intros Hz%map_size_empty_iff. by rewrite Hz, lookup_empty in Hd.
  - intros k Hk. by rewrite lookup_delete_ne.
  - intros c' Hc. by rewrite coll_insert_ne.
Qed.


(** ** Create *)

Lemma to_str_id_lookup_time (k : ObjectId) (d : document) f t :
  d !! f = Some (Datetime t) → f ≠ "_id" →
  to_str_id (k, d) !! f = Some (JStr (isoformat t)).
Proof.
  intros Hd Hf. unfold to_str_id. cbn [fst snd].
  rewrite lookup_insert_ne by done. by rewrite lookup_fmap, Hd.
Qed.

(** X9. [insert_with_schema] gives back what it stored: the answer is 201
    with a body that has the data sent, field by field, the string of a
    new [_id], and [created_at] and [updated_at] both at [now]; the
    collection has one record more, and every record that was there, in
    this and in every other collection, is as before. *)
Theorem insert_with_schema_round_trip now c data (db : database) :
  ∃ k body db',
    insert_with_schema now c data db = (Ok 201 (Some body), db')
    ∧ coll db c !! k = None
    ∧ find_one db' c k = Some (k, stamped now data)
    ∧ body !! "_id" = Some (JStr (ObjectId_str k))
    ∧ body !! "created_at" = Some (JStr (isoformat now))
    ∧ body !! "updated_at" = Some (JStr (isoformat now))
    ∧ (∀ f, f ≠ "_id" → f ≠ "created_at" → f ≠ "updated_at" →
            body !! f = data !! f)
    ∧ size (coll db' c) = S (size (coll db c))
    ∧ (∀ k', k' ≠ k → coll db' c !! k' = coll db c !! k')
    ∧ (∀ c', c' ≠ c → coll db' c' = coll db c').
Proof.
  pose proof (insert_with_schema_eq now c data db) as Heq. cbv zeta in Heq.
  pose proof (fresh_id_free db c) as Hfree.
  set (k := fresh (dom (coll db c))) in *.
  exists k, (to_str_id (k, stamped now data)),
    (<[c := <[k := stamped now data]> (coll db c)]> db).
  split_and!.
  - done.
  - done.
  - unfold find_one. by rewrite coll_insert, lookup_insert_eq.
  - apply to_str_id_id.
  - apply to_str_id_lookup_time; [|done].
    unfold stamped. by rewrite lookup_insert_ne, lookup_insert_eq.
  - apply to_str_id_lookup_time; [|done].
    unfold stamped. by rewrite lookup_insert_eq.
  - intros f Hid Hcr Hup. unfold to_str_id, stamped. cbn [fst snd].
    rewrite lookup_insert_ne, lookup_fmap by done.
    rewrite !lookup_insert_ne, lookup_fmap by done.
    by destruct (data !! f).
  - rewrite coll_insert. by apply map_size_insert_None.
  - intros k' Hk. by rewrite coll_insert, lookup_insert_ne.
  - intros c' Hc. by rewrite coll_insert_ne.
Qed.

(** An optional reference that the create handlers let through: absent,
    empty, or a well-formed identifier. *)
Definition acceptable (x : option string) : Prop :=
  ∀ s, x = Some s → s ≠ "" → ObjectId_is_valid s = true.

Lemma present_and_invalid_false x :
  present_and_invalid x = false ↔ acceptable x.
Proof.
  unfold present_and_invalid, truthy, acceptable.
  destruct x as [s|]; [|by split].
  destruct (decide (s = "")) as [->|Hne].
  - split; [|done]. by intros _ s [= <-] Hs.
  - rewrite negb_false_iff. split; [by intros ? ? [= <-] ?|eauto].
Qed.

Lemma present_and_invalid_true x :
  present_and_invalid x = true ↔ ¬ acceptable x.
Proof.
  rewrite <- present_and_invalid_false.
  by destruct (present_and_invalid x).
Qed.

(** X10. [create_package] refuses exactly the packages with an optional
    reference that is present, not empty and not well formed: with status
    400, the store untouched, and the detail naming [category_id] when
    that reference is at fault, [subcategory_id] otherwise.  Every other
    package, also one whose references are empty strings, is stored, with
    status 201. *)
Theorem create_package_checks_references now pkg (db : database) :
  (¬ acceptable (Package.category_id pkg) →
   create_package now pkg db = (HTTPException 400 "Invalid category_id", db))
  ∧ (acceptable (Package.category_id pkg) →
     ¬ acceptable (Package.subcategory_id pkg) →
     create_package now pkg db
     = (HTTPException 400 "Invalid subcategory_id", db))
  ∧ (acceptable (Package.category_id pkg) →
     acceptable (Package.subcategory_id pkg) →
     create_package now pkg db
     = insert_with_schema now "package" (dump_Package pkg) db
     ∧ status_of (create_package now pkg db).1 = 201%nat).
Proof.
  unfold create_package. split_and!.
  - intros Hc%present_and_invalid_true. by rewrite Hc.
  - intros Hc%present_and_invalid_false Hs%present_and_invalid_true.
    by rewrite Hc, Hs.
  - intros Hc%present_and_invalid_false Hs%present_and_invalid_false.
    rewrite Hc, Hs. split; [done|].
    pose proof (insert_with_schema_eq now "package" (dump_Package pkg) db)
      as Heq.
    cbv zeta in Heq. by rewrite Heq.
Qed.

(** X11. [create_quotation] checks the references in the order
    [employee_id], [house_category_id], [subcategory_id] and reports the
    first one at fault, with status 400 and the store untouched; the
    answer is 201 exactly when the three checks pass. *)
Theorem create_quotation_reports_first_fault now quotation (db : database) :
  (ObjectId_is_valid (Quotation.employee_id quotation) = false →
   create_quotation now quotation db
   = (HTTPException 400 "Invalid employee_id", db))
  ∧ (ObjectId_is_valid (Quotation.employee_id quotation) = true →
     ¬ acceptable (Quotation.house_category_id quotation) →
     create_quotation now quotation db
     = (HTTPException 400 "Invalid house_category_id", db))
  ∧ (ObjectId_is_valid (Quotation.employee_id quotation) = true →
     acceptable (Quotation.house_category_id quotation) →
     ¬ acceptable (Quotation.subcategory_id quotation) →
     create_quotation now quotation db
     = (HTTPException 400 "Invalid subcategory_id", db))
  ∧ (status_of (create_quotation now quotation db).1 = 201%nat
     ↔ ObjectId_is_valid (Quotation.employee_id quotation) = true
       ∧ acceptable (Quotation.house_category_id quotation)
       ∧ acceptable (Quotation.subcategory_id quotation)).
Proof.
  split_and!.
  - intros He. unfold create_quotation. by rewrite He.
  - intros He Hc%present_and_invalid_true.
    unfold create_quotation. by rewrite He, Hc.
  - intros He Hc%present_and_invalid_false Hs%present_and_invalid_true.
    unfold create_quotation. by rewrite He, Hc, Hs.
  - rewrite <- !present_and_invalid_false.
    destruct (references_ok quotation) eqn:Href.
    + pose proof (create_quotation_valid now quotation db Href) as Heq.
      cbv zeta in Heq. rewrite Heq. cbn [fst status_of].
      unfold references_ok in Href.
      apply andb_prop in Href as [Href Hs%negb_true_iff].
      apply andb_prop in Href as [He Hc%negb_true_iff]. done.
    + unfold references_ok in Href. unfold create_quotation.
      destruct (ObjectId_is_valid (Quotation.employee_id quotation));
        [|cbn; split; [done|by intros [? _]]].
      destruct (present_and_invalid (Quotation.house_category_id quotation));
        [cbn; split; [done|by intros (_ & ? & _)]|].
      destruct (present_and_invalid (Quotation.subcategory_id quotation));
        [cbn; split; [done|by intros (_ & _ & ?)]|done].
Qed.

(** ** The other list endpoints *)

(** What every list endpoint returns for its query: the rows that match,
    each once, newest first. *)
Lemma listing_rows (db : database) c q (P : document → Prop)
    `{!∀ d, Decision (P d)} :
  (∀ d, matches q d ↔ P d) →
  ∃ rows,
    list_sorted db c q = to_str_id <$> rows
    ∧ rows ≡ₚ filter (λ r : row, P r.2) (map_to_list (coll db c))
    ∧ (∀ k d, (k, d) ∈ rows ↔ coll db c !! k = Some d ∧ P d)
    ∧ NoDup rows
    ∧ StronglySorted newest_first rows.
Proof.
  intros HP. exists (sort_created_desc (find db c q)).
  assert (Hperm : sort_created_desc (find db c q)
                  ≡ₚ filter (λ r : row, P r.2) (map_to_list (coll db c))).
  { rewrite sort_created_desc_perm. unfold find.
    erewrite list_filter_iff; [done|]. intros [k d]. apply HP. }
  split_and!; [done|done| | |apply sort_created_desc_sorted].
  - intros k d. rewrite Hperm, list_elem_of_filter, elem_of_map_to_list.
    cbn [snd]. tauto.
  - rewrite Hperm. apply NoDup_filter, NoDup_map_to_list.
Qed.

(** X12. [list_packages] answers 200 with the packages that meet both
    filters, those that are supplied (a filter that is the empty string is
    not); a package meets a filter when its field is the filter's string
    or an array with that string among its elements.  Each package comes
    once, newest first; the store is not written. *)
Theorem list_packages_filtered_newest_first category_id subcategory_id
    (db : database) :
  ∃ rows,
    list_packages category_id subcategory_id db
    = (Ok 200 (to_str_id <$> rows), db)
    ∧ rows ≡ₚ filter (λ r : row, meets "category_id" category_id r.2
                                 ∧ meets "subcategory_id" subcategory_id r.2)
                     (map_to_list (coll db "package"))
    ∧ (∀ k d, (k, d) ∈ rows ↔
         coll db "package" !! k = Some d
         ∧ meets "category_id" category_id d
         ∧ meets "subcategory_id" subcategory_id d)
    ∧ NoDup rows
    ∧ StronglySorted newest_first rows.
Proof.
  destruct (listing_rows db "package"
              (with_filter "subcategory_id" subcategory_id
                 (with_filter "category_id" category_id ∅))
              (λ d, meets "category_id" category_id d
                    ∧ meets "subcategory_id" subcategory_id d))
    as (rows & Hrows & Hperm & Hin & Hnodup & Hsorted).
  { intros d. rewrite matches_with_filter
      by (by rewrite with_filter_lookup_ne).
    rewrite matches_with_filter by done.
    pose proof (matches_empty d). tauto. }
  exists rows. unfold list_packages. by rewrite Hrows.
Qed.

(** X13. [list_users] answers 200 with the users whose [role] is the
    filter's string or an array with that string among its elements, or
    with all users when the filter is absent or empty;
    [list_subcategories] does the same with [category_id]; and
    [list_categories] answers 200 with all categories.  Each record comes
    once, newest first, and the store is not written. *)
Theorem list_users_subcategories_categories role category_id (db : database) :
  (∃ rows,
     list_users role db = (Ok 200 (to_str_id <$> rows), db)
     ∧ (∀ k d, (k, d) ∈ rows ↔
          coll db "user" !! k = Some d ∧ meets "role" role d)
     ∧ NoDup rows ∧ StronglySorted newest_first rows)
  ∧ (∃ rows,
       list_subcategories category_id db = (Ok 200 (to_str_id <$> rows), db)
       ∧ (∀ k d, (k, d) ∈ rows ↔
            coll db "subcategory" !! k = Some d
            ∧ meets "category_id" category_id d)
       ∧ NoDup rows ∧ StronglySorted newest_first rows)
  ∧ (∃ rows,
       list_categories db = (Ok 200 (to_str_id <$> rows), db)
       ∧ (∀ k d, (k, d) ∈ rows ↔ coll db "housecategory" !! k = Some d)
       ∧ NoDup rows ∧ StronglySorted newest_first rows).
Proof.
  assert (Hone : ∀ f x d,
    matches (match truthy x with
             | Some s => {[ f := Equals s ]}
             | None => ∅
             end) d ↔ meets f x d).
  { intros f x d. unfold truthy, meets. destruct x as [s|].
    - destruct (decide (s = "")) as [->|Hne].
      + pose proof (matches_empty d). tauto.
      + rewrite matches_singleton. tauto.
    - pose proof (matches_empty d). tauto. }
  split_and!.
  - destruct (listing_rows db "user" _ (meets "role" role)
                (Hone "role" role))
      as (rows & Hrows & _ & Hin & Hnodup & Hsorted).
    exists rows. unfold list_users. by rewrite Hrows.
  - destruct (listing_rows db "subcategory" _
                (meets "category_id" category_id)
                (Hone "category_id" category_id))
      as (rows & Hrows & _ & Hin & Hnodup & Hsorted).
    exists rows. unfold list_subcategories. by rewrite Hrows.
  - destruct (listing_rows db "housecategory" ∅ (λ _, True))
      as (rows & Hrows & _ & Hin & Hnodup & Hsorted).
    { intros d. pose proof (matches_empty d). tauto. }
    exists rows. unfold list_categories. rewrite Hrows.
    split_and!; [done| |done|done].
    intros k d. rewrite Hin. tauto.
Qed.

(** ** More on the performance summary *)

(** The number of quotations that carry exactly this [employee_id]. *)
Definition quotations_of (employee_id : string) (db : database) : nat :=
  length (filter (λ r : row, field_is "employee_id" employee_id r.2)
                 (map_to_list (coll db "quotation"))).

(** The number of quotations that the store's equality finds for this
    [employee_id]: the field is that string, or an array with that string
    among its elements. *)
Definition quotations_carrying (employee_id : string) (db : database) : nat :=
  length (filter (λ r : row, carries "employee_id" employee_id r.2)
                 (map_to_list (coll db "quotation"))).

Lemma count_by_employee (db : database) employee_id :
  count_documents db "quotation" {[ "employee_id" := Equals employee_id ]}
  = quotations_carrying employee_id db.
Proof.
  unfold count_documents, find, quotations_carrying. f_equal.
  apply list_filter_iff. intros [k d]. apply matches_singleton.
Qed.

(** X14. For a well-formed [employee_id], [performance] answers 200
    without writing, and [total_quotations] is the number of quotations
    whose [employee_id] is that string or an array with that string among
    its elements. *)
Theorem total_quotations_counts_employee now employee_id (db : database) :
  ObjectId_is_valid employee_id = true →
  ∃ r,
    performance now employee_id db = (Ok 200 r, db)
    ∧ total_quotations r = quotations_carrying employee_id db.
Proof.
  intros Hid.
  destruct (performance_valid now employee_id db Hid) as (revenue & avg & ->).
  eexists. split; [done|]. apply count_by_employee.
Qed.

(** X15. For an employee with at least one quotation, all of them with a
    number under [total], [total_revenue] is the sum of those totals and
    [avg_quote_value] is that sum divided by [total_quotations]. *)
Theorem revenue_and_average_of_numeric_totals now employee_id (db : database)
    rs xs :
  ObjectId_is_valid employee_id = true →
  find db "quotation" {[ "employee_id" := Equals employee_id ]} = rs →
  rs ≠ [] →
  Forall2 (λ (r : row) x, number_at "total" r.2 = Some x) rs xs →
  ∃ r,
    performance now employee_id db = (Ok 200 r, db)
    ∧ total_quotations r = length rs
    ∧ total_revenue r = JNum (sum xs)
    ∧ avg_quote_value r = JNum (num_div_count (sum xs) (total_quotations r)).
Proof.
  intros Hid Hfind Hne Hxs.
  assert (Homap : omap (λ r : row, number_at "total" r.2) rs = xs).
  { clear Hfind Hne. induction Hxs as [|r x rs xs Hx _ IH]; [done|].
    cbn. by rewrite Hx, IH. }
  assert (Hlen : length xs = length rs)
    by (symmetry; by eapply Forall2_length).
  unfold performance, count_documents, aggregate.
  rewrite Hid, Hfind. cbn [negb].
  destruct rs as [|r0 rs]; [done|].
  rewrite Homap. destruct xs as [|x0 xs]; [done|].
  cbn [foldl revenue avg]. eexists. split; [done|].
  cbn [total_quotations total_revenue avg_quote_value].
  by rewrite Hlen.
Qed.

Lemma stored_quotation_employee now quotation :
  stamped now (quotation_payload quotation) !! "employee_id"
  = Some (J (JStr (Quotation.employee_id quotation))).
Proof.
  unfold stamped, quotation_payload.
  rewrite !lookup_insert_ne, lookup_fmap by done.
  destruct (overrides quotation); [|done].
  by rewrite !lookup_insert_ne by done.
Qed.

(** X16. A created quotation counts for its employee and for nobody else:
    after [create_quotation] answered 201, the number of quotations of the
    employee named in the request is one more than before, and the number
    of quotations of every other employee is as before. *)
Theorem created_quotation_counts_once now quotation (db : database) body db'
    employee_id :
  create_quotation now quotation db = (Ok 201 body, db') →
  quotations_of employee_id db'
  = if decide (employee_id = Quotation.employee_id quotation)
    then S (quotations_of employee_id db)
    else quotations_of employee_id db.
Proof.
  intros Hcreate.
  pose proof (create_quotation_Ok_inv _ _ _ _ _ _ Hcreate) as Href.
  pose proof (create_quotation_valid now quotation db Href) as Heq.
  cbv zeta in Heq. rewrite Heq in Hcreate. injection Hcreate as _ <-.
  unfold quotations_of. rewrite coll_insert.
  rewrite (map_to_list_insert _ _ _ (fresh_id_free db "quotation")).
  rewrite filter_cons. cbn [snd].
  destruct (decide (employee_id = Quotation.employee_id quotation))
    as [->|Hne].
  - rewrite decide_True; [done|]. apply stored_quotation_employee.
  - rewrite decide_False; [done|].
    unfold field_is. rewrite stored_quotation_employee. by intros [= ?].
Qed.

(** X17. A created quotation is listed: after [create_quotation] answered
    201 with a body, the unfiltered [list_quotations] returns that body,
    and returns one body more than before. *)
Theorem created_quotation_is_listed now quotation (db : database) body db' :
  create_quotation now quotation db = (Ok 201 (Some body), db') →
  ∃ before after,
    list_quotations None None db = (Ok 200 before, db)
    ∧ list_quotations None None db' = (Ok 200 after, db')
    ∧ body ∈ after
    ∧ length after = S (length before).
Proof.
  intros Hcreate.
  pose proof (create_quotation_Ok_inv _ _ _ _ _ _ Hcreate) as Href.
  pose proof (create_quotation_valid now quotation db Href) as Heq.
  cbv zeta in Heq. rewrite Heq in Hcreate. injection Hcreate as <- <-.
  eexists _, _. split_and!; [done|done| |].
  - unfold list_sorted. apply list_elem_of_fmap_2.
    unfold sort_created_desc. rewrite merge_sort_Permutation, find_all.
    apply elem_of_map_to_list. by rewrite coll_insert, lookup_insert_eq.
  - unfold list_sorted, sort_created_desc.
    rewrite !length_fmap, !merge_sort_Permutation, !find_all.
    rewrite coll_insert, !length_map_to_list.
    apply map_size_insert_None, fresh_id_free.
Qed.

(** ** Identifiers in a listing *)

Lemma list_sorted_ids (db : database) c q :
  NoDup ((λ b : gmap string json, b !! "_id") <$> list_sorted db c q).
Proof.
  unfold list_sorted. rewrite <- list_fmap_compose.
  assert (Hkeys : NoDup ((sort_created_desc (find db c q)).*1)).
  { rewrite sort_created_desc_perm. unfold find.
    eapply sublist_NoDup; [apply (NoDup_fst_map_to_list (coll db c))|].
    apply fmap_sublist, sublist_filter. }
  rewrite (list_fmap_ext _ ((λ k, Some (JStr (ObjectId_str k))) ∘ fst)
             (sort_created_desc (find db c q)))
    by (intros i r _; apply to_str_id_id).
  rewrite list_fmap_compose.
  apply NoDup_fmap_2_strong; [|done].
  intros a b _ _ [= Heq]. by apply ObjectId_str_inj.
Qed.

(** X18. No list endpoint returns two bodies with the same [_id]. *)
Theorem listed_ids_are_distinct role category_id subcategory_id employee_id
    status (db : database) listed :
  (list_users role db).1 = Ok 200 listed
  ∨ (list_categories db).1 = Ok 200 listed
  ∨ (list_subcategories category_id db).1 = Ok 200 listed
  ∨ (list_packages category_id subcategory_id db).1 = Ok 200 listed
  ∨ (list_quotations employee_id status db).1 = Ok 200 listed →
  NoDup ((λ b : gmap string json, b !! "_id") <$> listed).
Proof.
  intros [Hl|[Hl|[Hl|[Hl|Hl]]]]; injection Hl as <-; apply list_sorted_ids.
Qed.

(** ** Timestamps of the stored documents *)

(** A document with both timestamps in order: [updated_at] is a timestamp
    not after [t], [created_at] is there, and when it is a timestamp it is
    not after [updated_at]. *)
Definition well_stamped (t : Z) (d : document) : Prop :=
  ∃ τ, d !! "updated_at" = Some (Datetime τ)
       ∧ τ ≤ t
       ∧ is_Some (d !! "created_at")
       ∧ (∀ τc, created_at d = Some τc → τc ≤ τ).

Lemma well_stamped_later t t' d : well_stamped t d → t ≤ t' → well_stamped t' d.
Proof.
  intros (τ & Hup & Hle & Hcr & Hord) Ht. exists τ. split_and!; [done|lia|done..].
Qed.

Lemma well_stamped_stamped now data : well_stamped now (stamped now data).
Proof.
  exists now. unfold stamped. split_and!.
  - apply lookup_insert_eq.
  - lia.
  - rewrite lookup_insert_ne, lookup_insert_eq by done. by eexists.
  - intros τc. fold (stamped now data). rewrite created_at_stamped.
    intros [= <-]. lia.
Qed.

Lemma well_stamped_updated t now payload (d d' : document) :
  apply_set (with_updated_at now payload) d = Some d' →
  well_stamped t d → t ≤ now → well_stamped now d'.
Proof.
  intros Hset (τ & Hup & Hle & Hcr & Hord) Ht. exists now.
  destruct (apply_set_written _ _ _ _ Hset) as [Hstamp _].
  split_and!; [done|lia|by eapply apply_set_keeps|].
  intros τc Hτ. eapply created_at_updated in Hτ; [|done].
  apply Hord in Hτ. lia.
Qed.

(** X19. On every database that the API built, with a clock that does not
    run backwards, every document has an [updated_at] that is a timestamp
    not after the time of the last request and has a [created_at]; when
    [created_at] is still a timestamp, it is not after [updated_at]. *)
Theorem reachable_well_stamped t (db : database) c k d :
  reachable t db → coll db c !! k = Some d → well_stamped t d.
Proof.
  intros Hreach. revert c k d.
  induction Hreach as [t|t db t' r _ IH Hle]; intros c' k' d' Hd'.
  - by rewrite coll_empty, lookup_empty in Hd'.
  - assert (Hold : ∀ d, coll db c' !! k' = Some d → well_stamped t' d).
    { intros d Hd. eapply well_stamped_later; [by eapply IH|done]. }
    destruct (handle_effect t' r db)
      as [|c k data|c k payload d d0 Hd Hset|c k].
    + by apply Hold.
    + destruct (decide (c = c')) as [<-|Hc];
        [rewrite coll_insert in Hd'
        |rewrite coll_insert_ne in Hd' by done; by apply Hold].
      destruct (decide (k = k')) as [<-|Hk];
        [rewrite lookup_insert_eq in Hd'
        |rewrite lookup_insert_ne in Hd' by done; by apply Hold].
      injection Hd' as <-. apply well_stamped_stamped.
    + destruct (decide (c = c')) as [<-|Hc];
        [rewrite coll_insert in Hd'
        |rewrite coll_insert_ne in Hd' by done; by apply Hold].
      destruct (decide (k = k')) as [<-|Hk];
        [rewrite lookup_insert_eq in Hd'
        |rewrite lookup_insert_ne in Hd' by done; by apply Hold].
      injection Hd' as <-.
      eapply well_stamped_updated; [done|by eapply IH|done].
    + destruct (decide (c = c')) as [<-|Hc];
        [rewrite coll_insert in Hd'
        |rewrite coll_insert_ne in Hd' by done; by apply Hold].
      apply lookup_delete_Some in Hd' as [_ Hd']. by apply Hold.
Qed.

(** ** [PyObjectId] *)

(** X20. [PyObjectId.validate] gives an [ObjectId] back as it is, raises
    on exactly the strings that are not well formed, and reads the string
    of an identifier, when that string is well formed, as that very
    identifier. *)
Theorem PyObjectId_validate_reads_back (o : ObjectId) :
  ObjectId_is_valid (ObjectId_str o) = true →
  PyObjectId_validate (inl o) = Some o
  ∧ PyObjectId_validate (inr (ObjectId_str o)) = Some o
  ∧ (∀ s, PyObjectId_validate (inr s) = None ↔ ObjectId_is_valid s = false).
Proof.
  intros Hvalid. unfold PyObjectId_validate. split_and!; [done| |].
  - by rewrite Hvalid, ObjectId_new_str.
  - intros s. by destruct (ObjectId_is_valid s).
Qed.

End Further.

(** ** The further properties at work *)

Definition the_quotation : gmap string value :=
  stamped 1000 (quotation_payload raw_items).

Lemma create_then_get_quotation_witness :
  ∃ body db',
    create_quotation 1000 raw_items ∅ = (Ok 201 (Some body), db')
    ∧ body !! "_id" = Some (JStr first_id)
    ∧ ObjectId_is_valid first_id = true
    ∧ get_quotation first_id db' = (Ok 200 body, db').
Proof.
  eexists _, _. split_and!; [reflexivity..|].
  eapply (create_then_get_quotation 1000 raw_items ∅ _ _ first_id);
    reflexivity.
Defined.

Lemma update_then_get_quotation_witness :
  ∃ body db',
    update_quotation 2000 first_id {[ "status" := JStr "sent" ]} one_quotation
    = (Ok 200 body, db')
    ∧ get_quotation first_id db' = (Ok 200 body, db').
Proof.
  eexists _, _. split; [reflexivity|].
  eapply (update_then_get_quotation 2000 first_id
           {[ "status" := JStr "sent" ]} one_quotation).
  reflexivity.
Defined.


Lemma raising_handler_leaves_store_witness :
  handler_raises 2000 (Delete "quotation" "0123456789abcdef01234567")
                 one_quotation
  = Some (404%nat, "Not found")
  ∧ handle 2000 (Delete "quotation" "0123456789abcdef01234567") one_quotation
    = one_quotation
  ∧ 404%nat ∈ [400; 404; 500]%nat.
Proof.
  split; [reflexivity|].
  apply (raising_handler_leaves_store 2000
           (Delete "quotation" "0123456789abcdef01234567")
           one_quotation 404 "Not found").
  reflexivity.
Defined.

Lemma update_twice_is_update_once_witness :
  plain_keys ({[ "status" := JStr "sent" ]} : gmap string json) = true
  ∧ plain_keys ({[ "notes" := JStr "call back" ]} : gmap string json) = true
  ∧ ∃ body1 db1 body2 db2 body db',
      update_by_id 2000 "quotation" first_id {[ "status" := JStr "sent" ]}
                   one_quotation = (Ok 200 body1, db1)
      ∧ update_by_id 3000 "quotation" first_id
          {[ "notes" := JStr "call back" ]} db1 = (Ok 200 body2, db2)
      ∧ update_by_id 3000 "quotation" first_id
          ({[ "notes" := JStr "call back" ]} ∪ {[ "status" := JStr "sent" ]})
          one_quotation = (Ok 200 body, db')
      ∧ body2 = body ∧ db2 = db'.
Proof.
  split_and!; [reflexivity..|].
  eexists _, _, _, _, _, _. split_and!; [reflexivity..|].
  eapply (update_twice_is_update_once 2000 3000 "quotation" first_id
            {[ "status" := JStr "sent" ]} {[ "notes" := JStr "call back" ]}
            one_quotation); reflexivity.
Defined.

Lemma delete_removes_one_record_witness :
  ∃ body db',
    delete_by_id "quotation" first_id one_quotation = (Ok 200 body, db')
    ∧ coll db' "quotation" !! ObjectId_new first_id = None
    ∧ S (size (coll db' "quotation")) = size (coll one_quotation "quotation")
    ∧ (∀ k, k ≠ ObjectId_new first_id →
            coll db' "quotation" !! k = coll one_quotation "quotation" !! k)
    ∧ (∀ c', c' ≠ "quotation" → coll db' c' = coll one_quotation c').
Proof.
  eexists _, _. split; [reflexivity|].
  eapply (delete_removes_one_record "quotation" first_id one_quotation).
  reflexivity.
Defined.


Lemma total_quotations_counts_employee_witness :
  ObjectId_is_valid an_employee = true
  ∧ ∃ r,
      performance 2000 an_employee one_quotation = (Ok 200 r, one_quotation)
      ∧ total_quotations r = 1%nat.
Proof.
  split; [reflexivity|].
  eapply (total_quotations_counts_employee 2000 an_employee one_quotation).
  reflexivity.
Defined.

Lemma revenue_and_average_of_numeric_totals_witness :
  ObjectId_is_valid an_employee = true
  ∧ find one_quotation "quotation" {[ "employee_id" := Equals an_employee ]}
    = [(ObjectId_new first_id, the_quotation)]
  ∧ [(ObjectId_new first_id, the_quotation)] ≠ []
  ∧ ∃ r,
      performance 2000 an_employee one_quotation = (Ok 200 r, one_quotation)
      ∧ total_quotations r = 1%nat
      ∧ total_revenue r = JNum (num_of_Z 145)
      ∧ avg_quote_value r
        = JNum (num_div_count (num_of_Z 145) (total_quotations r)).
Proof.
  split_and!; [reflexivity|reflexivity|discriminate|].
  eapply (revenue_and_average_of_numeric_totals 2000 an_employee one_quotation
           [(ObjectId_new first_id, the_quotation)] [num_of_Z 145]);
    [reflexivity|reflexivity|discriminate|].
  repeat constructor.
Defined.

Lemma created_quotation_counts_once_witness :
  ∃ body db',
    create_quotation 1000 raw_items ∅ = (Ok 201 body, db')
    ∧ quotations_of an_employee db' = 1%nat
    ∧ quotations_of "aaaaaaaaaaaaaaaaaaaaaaaa" db' = 0%nat.
Proof.
  eexists _, _. split; [reflexivity|]. split.
  - etransitivity;
      [eapply (created_quotation_counts_once 1000 raw_items ∅ _ _ an_employee)
      |]; reflexivity.
  - etransitivity;
      [eapply (created_quotation_counts_once 1000 raw_items ∅ _ _
                 "aaaaaaaaaaaaaaaaaaaaaaaa")
      |]; reflexivity.
Defined.

Lemma created_quotation_is_listed_witness :
  ∃ body db',
    create_quotation 2000 precomputed one_quotation = (Ok 201 (Some body), db')
    ∧ ∃ before after,
        list_quotations None None one_quotation = (Ok 200 before, one_quotation)
        ∧ list_quotations None None db' = (Ok 200 after, db')
        ∧ body ∈ after
        ∧ length after = S (length before).
Proof.
  eexists _, _. split; [reflexivity|].
  eapply (created_quotation_is_listed 2000 precomputed one_quotation).
  reflexivity.
Defined.

Lemma listed_ids_are_distinct_witness :
  ∃ listed,
    (list_quotations (Some an_employee) None one_quotation).1 = Ok 200 listed
    ∧ NoDup ((λ b : gmap string json, b !! "_id") <$> listed).
Proof.
  eexists. split; [reflexivity|].
  eapply (listed_ids_are_distinct None None None (Some an_employee) None
           one_quotation).
  right; right; right; right. reflexivity.
Defined.

Lemma reachable_well_stamped_witness :
  reachable 1000 one_quotation
  ∧ coll one_quotation "quotation" !! ObjectId_new first_id
    = Some the_quotation
  ∧ well_stamped 1000 the_quotation.
Proof.
  split_and!; [apply one_quotation_reachable|reflexivity|].
  eapply (reachable_well_stamped 1000 one_quotation "quotation"
           (ObjectId_new first_id) the_quotation);
    [apply one_quotation_reachable|reflexivity].
Defined.

Lemma PyObjectId_validate_reads_back_witness :
  ObjectId_is_valid (ObjectId_str (ObjectId_new "0000000000000000000000FF"))
  = true
  ∧ PyObjectId_validate (inl (ObjectId_new "0000000000000000000000FF"))
    = Some (ObjectId_new "0000000000000000000000FF")
  ∧ PyObjectId_validate (inr "0000000000000000000000ff")
    = Some (ObjectId_new "0000000000000000000000FF")
  ∧ (∀ s, PyObjectId_validate (inr s) = None ↔ ObjectId_is_valid s = false).
Proof.
  split; [reflexivity|].
  exact (PyObjectId_validate_reads_back
           (ObjectId_new "0000000000000000000000FF") eq_refl).
Defined.
